(** * Requester: a shallow embedding of [utils-connector-tools/src/requester.ts]

    The file models the [Requester] class of the connector tools: the
    decompression cascade ([decompressors], [tryToDecompress],
    [decompressResponse]), the constructor's option merging, the data-URI
    shortcut and the redirect-following [get].

    Conventions.
    - A JavaScript string is a Rocq [string]; every [ascii] stands for one
      code unit in the range 0..255 (header values reach the code as
      latin-1 text).
    - A [Buffer] is a list of bytes.
    - A promise that rejects, or a call that throws, is an absent result
      ([None]) or an error value; the code's [try]/[catch] becomes a match.
    - The libraries the class calls ([zlib], [iltorb], [request], [url],
      [iconv-lite], [data-urls], [@hint/utils]) are interfaces: type classes
      whose fields are the functions the source calls. *)

From Stdlib Require Import Strings.String Strings.Ascii Strings.Byte ZArith NArith List Lia Bool.
From stdpp Require Import base option list gmap sets strings.

Import ListNotations.
Local Open Scope string_scope.
Local Open Scope list_scope.

(** ** JavaScript strings *)

Module JsString.

(** Code units that [String.prototype.trim] removes, among 0..255: TAB, LF,
    VT, FF, CR, SPACE and NBSP. *)
Definition isWhiteSpace (c : ascii) : bool :=
  let n := nat_of_ascii c in
  (n =? 9)%nat || (n =? 10)%nat || (n =? 11)%nat || (n =? 12)%nat
  || (n =? 13)%nat || (n =? 32)%nat || (n =? 160)%nat.

Fixpoint trimStart (s : string) : string :=
  match s with
  | EmptyString => EmptyString
  | String c s' => if isWhiteSpace c then trimStart s' else s
  end.

(** [trimEnd] drops the trailing run of white space: a white-space code unit
    stays only when something that stays follows it. *)
Fixpoint trimEnd (s : string) : string :=
  match s with
  | EmptyString => EmptyString
  | String c s' =>
      match trimEnd s' with
      | EmptyString => if isWhiteSpace c then EmptyString else String c EmptyString
      | t => String c t
      end
  end.

(** [s.trim()] *)
Definition trim (s : string) : string := trimEnd (trimStart s).

(** [s.split(sep)] for a one-character separator: never empty, and [""]
    splits to [[""]]. *)
Fixpoint split (sep : ascii) (s : string) : list string :=
  match s with
  | EmptyString => [EmptyString]
  | String c s' =>
      if Ascii.eqb c sep then EmptyString :: split sep s'
      else match split sep s' with
           | [] => [String c EmptyString]
           | t :: ts => String c t :: ts
           end
  end.

(** [l.join(sep)] *)
Fixpoint join (sep : ascii) (l : list string) : string :=
  match l with
  | [] => EmptyString
  | x :: rest =>
      match rest with
      | [] => x
      | _ :: _ => x ++ String sep (join sep rest)
      end
  end.

(** [s.startsWith(p)] *)
Definition startsWith (p s : string) : bool := String.prefix p s.

(** A string in a boolean position: only [""] is falsy. *)
Definition truthy (s : string) : bool := negb (String.eqb s EmptyString).

(** The separator does not occur in the string. *)
Fixpoint free_of (sep : ascii) (s : string) : bool :=
  match s with
  | EmptyString => true
  | String c s' => negb (Ascii.eqb c sep) && free_of sep s'
  end.

End JsString.

Definition comma : ascii := ","%char.

(** ** Buffers and decompressors *)

Definition Buffer : Type := list byte.

(** [interface IDecompressor { (content: Buffer): Promise<Buffer> }]: the
    promise resolves with a buffer ([Some]) or rejects ([None]). *)
Definition IDecompressor : Type := Buffer -> option Buffer.

(** The decompression primitives of [iltorb] and [zlib] the file promisifies:
    [decompressBrotli], [decompressGzip], [inflateAsync], [inflateRawAsync]. *)
Class Codecs : Type := {
  decompressBrotli : IDecompressor;
  decompressGzip : IDecompressor;
  inflateAsync : IDecompressor;
  inflateRawAsync : IDecompressor
}.

(** [buff.readUInt16BE(0)]: a [RangeError] when fewer than two bytes. *)
Definition readUInt16BE0 (buff : Buffer) : option N :=
  match buff with
  | b0 :: b1 :: _ => Some (Byte.to_N b0 * 256 + Byte.to_N b1)%N
  | _ => None
  end.

(** [buff[0] & 0x0f]; [buff[0]] is [undefined] on an empty buffer and
    [undefined & 0x0f] is [0]. *)
Definition lowNibble0 (buff : Buffer) : N :=
  match buff with
  | b0 :: _ => N.land (Byte.to_N b0) 15
  | [] => 0%N
  end.

(** [inflate]: the RFC 1950 sniff picks [zlib.inflate] or [zlib.inflateRaw].
    [&&] evaluates [readUInt16BE] only when the nibble is 8; its [RangeError]
    is thrown inside [tryToDecompress]'s [try], hence a failure. *)
Definition inflate `{Codecs} : IDecompressor := fun buff =>
  if (lowNibble0 buff =? 8)%N then
    match readUInt16BE0 buff with
    | Some w => if (w mod 31 =? 0)%N then inflateAsync buff else inflateRawAsync buff
    | None => None
    end
  else inflateRawAsync buff.

(** [identity]: [Promise.resolve(Buffer.from(buff))], a copy. *)
Definition identity : IDecompressor := fun buff => Some buff.

(** [tryToDecompress]: the decompressor's result, [null] when it fails. *)
Definition tryToDecompress (decompressor : IDecompressor) (content : Buffer)
  : option Buffer :=
  match decompressor content with
  | Some result => Some result
  | None => None
  end.

(** What reading a property of the object literal [priorities] gives: one of
    the four own numbers, a member inherited from [Object.prototype] (a
    function or an object, never [undefined]), or [undefined]. *)
Inductive JsValue : Type :=
| JsNumber (n : nat)
| JsInherited
| JsUndefined.

(** The property names every object literal inherits from
    [Object.prototype]. *)
Definition objectPrototypeKeys : list string :=
  [ "constructor"; "__proto__"; "hasOwnProperty"; "isPrototypeOf";
    "propertyIsEnumerable"; "toLocaleString"; "toString"; "valueOf";
    "__defineGetter__"; "__defineSetter__"; "__lookupGetter__";
    "__lookupSetter__" ].

(** [priorities[name]] for
    [{ br: 0, gzip: 1, deflate: 2, identity: 3 }]. *)
Definition priorities (name : string) : JsValue :=
  if String.eqb name "br" then JsNumber 0
  else if String.eqb name "gzip" then JsNumber 1
  else if String.eqb name "deflate" then JsNumber 2
  else if String.eqb name "identity" then JsNumber 3
  else if existsb (String.eqb name) objectPrototypeKeys then JsInherited
  else JsUndefined.

(** [functions.slice(priority)]: a number is the start index; [undefined]
    and a value whose number is [NaN] both start at 0. *)
Definition slice {A : Type} (priority : JsValue) (functions : list A) : list A :=
  match priority with
  | JsNumber n => skipn n functions
  | JsInherited => functions
  | JsUndefined => functions
  end.

(** [decompressors(algorithm)] *)
Definition decompressors `{Codecs} (algorithm : string) : list IDecompressor :=
  let functions := [decompressBrotli; decompressGzip; inflate; identity] in
  let priority :=
    match priorities (JsString.trim algorithm) with
    | JsUndefined => priorities "identity"
    | _ => priorities algorithm
    end in
  slice priority functions.

(** The [for ... of] loop of [decompressResponse]: [rawBody] is the result of
    the first decompressor that does not fail, [null] when all fail. *)
Fixpoint firstSuccess (ds : list IDecompressor) (rawBodyResponse : Buffer)
  : option Buffer :=
  match ds with
  | [] => None
  | decompressor :: ds' =>
      match tryToDecompress decompressor rawBodyResponse with
      | Some rawBody => Some rawBody
      | None => firstSuccess ds' rawBodyResponse
      end
  end.

(** [contentEncoding ? contentEncoding.split(',') : ['']] *)
Definition algorithmsOf (contentEncoding : option string) : list string :=
  match contentEncoding with
  | Some s => if JsString.truthy s then JsString.split comma s else [EmptyString]
  | None => [EmptyString]
  end.

(** The body of [decompressResponse] once [algorithms] is split into its
    first item (what [shift()] removes) and the rest: the cascade for the
    first item, then the call on [algorithms.join(',')], which splits again
    to the same rest ([decompressResponse_unfold] below). *)
Fixpoint decompressAlgorithms `{Codecs} (first : string) (rest : list string)
    (rawBodyResponse : Buffer) : option Buffer :=
  match firstSuccess (decompressors (JsString.trim first)) rawBodyResponse with
  | Some rawBody =>
      match rest with
      | [] => Some rawBody
      | next :: rest' => decompressAlgorithms next rest' rawBody
      end
  | None => None
  end.

(** [decompressResponse(contentEncoding, rawBodyResponse)] *)
Definition decompressResponse `{Codecs} (contentEncoding : option string)
    (rawBodyResponse : Buffer) : option Buffer :=
  match algorithmsOf contentEncoding with
  | [] => None
  | first :: rest => decompressAlgorithms first rest rawBodyResponse
  end.

(** ** Options and construction *)

(** [HttpHeaders] and the [headers] option: header name to value. *)
Definition HttpHeaders : Type := gmap string string.

(** The fields of [request.CoreOptions] the file reads or writes. [None] is
    an absent property; [encoding: null] is [Some None]. *)
Record CoreOptions : Type := {
  encoding : option (option string);
  followRedirect : option bool;
  headers : option HttpHeaders;
  jar : option bool;
  time : option bool;
  timeout : option Z;
  rejectUnauthorized : option bool;
  maxRedirects : option Z;
  method : option string
}.

(** [defaults.headers]; the number [1] of [DNT] is written as it is sent. *)
Definition defaultHeaders : HttpHeaders :=
  list_to_map
    [ ("Accept-Encoding", "gzip, deflate, br");
      ("Accept-Language", "en-US,en;q=0.8,es;q=0.6,fr;q=0.4");
      ("Cache-Control", "no-cache");
      ("DNT", "1");
      ("Pragma", "no-cache");
      ("User-Agent",
       "Mozilla/5.0 (Windows NT 10.0; Win64; x64) AppleWebKit/537.36 (KHTML, like Gecko) Chrome/74.0.3729.131 Safari/537.36") ].

(** [defaults] *)
Definition defaults : CoreOptions := {|
  encoding := Some None;
  followRedirect := Some false;
  headers := Some defaultHeaders;
  jar := Some true;
  time := Some true;
  timeout := Some 10000%Z;
  rejectUnauthorized := None;
  maxRedirects := None;
  method := None
|}.

(** One property of [Object.assign({}, a, b)]: [b]'s when [b] has it. *)
Definition assignField {A : Type} (a b : option A) : option A :=
  match b with
  | Some v => Some v
  | None => a
  end.

(** [Object.assign({}, a, b)] on options objects. *)
Definition assignOptions (a b : CoreOptions) : CoreOptions := {|
  encoding := assignField (encoding a) (encoding b);
  followRedirect := assignField (followRedirect a) (followRedirect b);
  headers := assignField (headers a) (headers b);
  jar := assignField (jar a) (jar b);
  time := assignField (time a) (time b);
  timeout := assignField (timeout a) (timeout b);
  rejectUnauthorized := assignField (rejectUnauthorized a) (rejectUnauthorized b);
  maxRedirects := assignField (maxRedirects a) (maxRedirects b);
  method := assignField (method a) (method b)
|}.

(** [Object.assign({}, a, b)] on header objects: [b] wins on a shared key. *)
Definition assignHeaders (a b : HttpHeaders) : HttpHeaders := b ∪ a.

(** [n || d] on numbers: [0] is falsy. *)
Definition numberOr (n : option Z) (d : Z) : Z :=
  match n with
  | Some v => if (v =? 0)%Z then d else v
  | None => d
  end.

(** [s || d] on strings: [undefined], [null] and [""] are falsy. *)
Definition stringOr (s : option string) (d : string) : string :=
  match s with
  | Some v => if JsString.truthy v then v else d
  | None => d
  end.

(** The interface of [./redirects]' [RedirectManager] on a state [R]:
    [new RedirectManager()], [add(hop, requestedUrl)], [calculate(uri)]. *)
Class RedirectManager (R : Type) : Type := {
  rm_new : R;
  rm_add : string -> string -> R -> R;
  rm_calculate : R -> string -> list string
}.

(** A response as [request] hands it to the callback, with the body as the
    ['data'] events of the ['response'] stream deliver it. *)
Record Response : Type := {
  statusCode : Z;
  res_headers : HttpHeaders;
  req_headers : HttpHeaders;   (* [response.request.headers] *)
  chunks : list Buffer
}.

(** [contentType.getContentTypeData]'s result. *)
Record ContentTypeData : Type := {
  ct_charset : option string;
  ct_mediaType : option string
}.

(** What [parseDataURL] returns: [mimeType.parameters], [mimeType.toString()]
    and [body]. *)
Record MIMEType : Type := {
  parameters : gmap string string;
  mime_toString : string
}.

Record ParsedDataURL : Type := {
  mimeType : MIMEType;
  body : Buffer
}.

(** The collaborators of the class: [request], [url.resolve],
    [network.normalizeHeaderValue], [contentType.getContentTypeData],
    [misc.toLowerCaseKeys], [iconv.encodingExists], [iconv.decode] and
    [parseDataURL] (no result when it cannot parse). The transport answers a
    request made with given options for a URI with an error or a response. *)
Class Collaborators : Type := {
  request : CoreOptions -> string -> string + Response;
  url_resolve : string -> string -> string;
  normalizeHeaderValue : HttpHeaders -> string -> option string;
  getContentTypeData : string -> HttpHeaders -> option Buffer -> ContentTypeData;
  toLowerCaseKeys : HttpHeaders -> HttpHeaders;
  encodingExists : string -> bool;
  iconv_decode : Buffer -> string -> string;
  parseDataURL : string -> option ParsedDataURL
}.

(** The instance: [_redirects], [_maxRedirects], [_options]; [_request] is
    the transport applied to [_options]. *)
Record Requester (R : Type) : Type := {
  _redirects : R;
  _maxRedirects : Z;
  _options : CoreOptions
}.
Arguments _redirects {R} _.
Arguments _maxRedirects {R} _.
Arguments _options {R} _.

(** [customOptions] after the writes inside [if (customOptions)] (lines
    165-176): [followRedirect] and [rejectUnauthorized] are set to [false],
    and [headers], when there, becomes the lower-cased defaults overridden by
    the lower-cased caller headers. *)
Definition forcedOptions `{Collaborators} (customOptions : CoreOptions) : CoreOptions := {|
  encoding := encoding customOptions;
  followRedirect := Some false;
  headers :=
    match headers customOptions with
    | Some h =>
        Some (assignHeaders (toLowerCaseKeys defaultHeaders) (toLowerCaseKeys h))
    | None => None
    end;
  jar := jar customOptions;
  time := time customOptions;
  timeout := timeout customOptions;
  rejectUnauthorized := Some false;
  maxRedirects := maxRedirects customOptions;
  method := method customOptions
|}.

(** [new Requester(customOptions?)]. With an options object: the writes
    above, [_maxRedirects = customOptions.maxRedirects || 10], and
    [options = Object.assign({}, defaults, customOptions)]. With none, the
    [if] is skipped, [_maxRedirects] keeps its initial 10, and
    [Object.assign] skips the [undefined] source: the options are a copy of
    [defaults]. *)
Definition constructor `{Collaborators} {R} `{RedirectManager R}
    (customOptions : option CoreOptions) : Requester R :=
  match customOptions with
  | Some c => {|
      _redirects := rm_new;
      _maxRedirects := numberOr (maxRedirects c) 10;
      _options := assignOptions defaults (forcedOptions c)
    |}
  | None => {|
      _redirects := rm_new;
      _maxRedirects := 10;
      _options := defaults
    |}
  end.

(** [getRedirects(uri)] *)
Definition getRedirects {R} `{RedirectManager R} (this : Requester R) (uri : string)
  : list string :=
  rm_calculate (_redirects this) uri.

(** ** The result: [NetworkData] *)

(** [response.body.content]: the decoded text, [null], or, on the data-URI
    path, the parsed body itself ([parsedDataURL.body as any]). *)
Inductive Content : Type :=
| ContentText (text : string)
| ContentBody (bytes : Buffer)
| ContentNull.

Record RequestData : Type := {
  request_headers : HttpHeaders;
  request_url : string
}.

Record ResponseBody : Type := {
  content : Content;
  rawContent : option Buffer;
  rawResponse : Buffer   (* what [rawResponse()] resolves with *)
}.

Record ResponseData : Type := {
  response_body : ResponseBody;
  charset : string;
  response_headers : HttpHeaders;
  hops : list string;
  mediaType : string;
  response_statusCode : Z;
  response_url : string
}.

Record NetworkData : Type := {
  nd_request : RequestData;
  nd_response : ResponseData
}.

(** How a [get] fails: the four [reject(...)] calls of [getUri], and the
    exception of the data-URI path when the parser gives nothing. *)
Inductive Rejection : Type :=
| NetworkError (error : string) (uri : string)
    (* [reject({ error: err, uri: uriString })] *)
| MissingLocationError (uri : string)
    (* [reject({ error: new Error('Redirect location undefined'), uri })] *)
| RedirectLoopError (uri : string) (method : string)
    (* ['${uriString}' could not be fetched using ${method} method (redirect loop detected).] *)
| TooManyRedirectsError (currentRedirectNumber : nat) (limit : Z)
    (* [The number of redirects(${n}) exceeds the limit(${max}).] *)
| MalformedDataUriError (uri : string).

Inductive Outcome : Type :=
| Resolved (networkData : NetworkData)
| Rejected (reason : Rejection)
| Unfinished.   (* the recursion went deeper than the fuel given *)

(** [Requester.validRedirects] *)
Definition validRedirects : list Z := [301; 302; 303; 307; 308]%Z.

(** [validRedirects.includes(code)] *)
Definition isValidRedirect (code : Z) : bool := existsb (Z.eqb code) validRedirects.

(** [Buffer.concat(byteChunks)] *)
Definition Buffer_concat (byteChunks : list Buffer) : Buffer := List.concat byteChunks.

(** [hops[0] || uriString] *)
Definition firstHopOr (hops : list string) (uriString : string) : string :=
  match hops with
  | h :: _ => if JsString.truthy h then h else uriString
  | [] => uriString
  end.

(** [getResourceNetworkDataFromDataUri(uri)] for a parsed data URL. *)
Definition networkDataOfDataUrl (uri : string) (parsedDataURL : ParsedDataURL)
  : NetworkData := {|
  nd_request := {| request_headers := ∅; request_url := uri |};
  nd_response := {|
    response_body := {|
      content := ContentBody (body parsedDataURL);
      rawContent := Some (body parsedDataURL);
      rawResponse := body parsedDataURL
    |};
    charset := stringOr (parameters (mimeType parsedDataURL) !! "charset") "";
    response_headers := ∅;
    hops := [];
    mediaType := mime_toString (mimeType parsedDataURL);
    response_statusCode := 200;
    response_url := uri
  |}
|}.

(** [getResourceNetworkDataFromDataUri(uri)]: reading [.body] of a missing
    parse result throws. *)
Definition getResourceNetworkDataFromDataUri `{Collaborators} (uri : string)
  : Outcome :=
  match parseDataURL uri with
  | Some parsedDataURL => Resolved (networkDataOfDataUrl uri parsedDataURL)
  | None => Rejected (MalformedDataUriError uri)
  end.

(** What one [get] call carries along: the set [requestedUrls], the
    instance's [_redirects], and, as a record of the effects, the URIs for
    which [this._request] was called, oldest first. *)
Record Session (R : Type) : Type := {
  requestedUrls : gset string;
  redirects : R;
  issued : list string
}.
Arguments requestedUrls {R} _.
Arguments redirects {R} _.
Arguments issued {R} _.

(** [requestedUrls.add(uriString)] and the call of [this._request] for
    [uriString]. *)
Definition visit {R} (s : Session R) (uriString : string) : Session R := {|
  requestedUrls := {[uriString]} ∪ requestedUrls s;
  redirects := redirects s;
  issued := issued s ++ [uriString]
|}.

(** [this._redirects.add(newUri, uriString)] *)
Definition record {R} `{RedirectManager R} (s : Session R) (newUri uriString : string)
  : Session R := {|
  requestedUrls := requestedUrls s;
  redirects := rm_add newUri uriString (redirects s);
  issued := issued s
|}.

Section Get.
Context `{Codecs} `{Collaborators} {R : Type} `{RedirectManager R}.

(** The terminal branch of the request callback (lines 284-314): the
    response is not a redirect we follow. [uri] is [get]'s argument,
    [uriString] the URI this response came from, [rawBodyResponse] the
    concatenated chunks. *)
Definition terminalData (redirects : R) (uri uriString : string)
    (response : Response) (rawBodyResponse : Buffer) : NetworkData :=
  let contentEncoding := normalizeHeaderValue (res_headers response) "content-encoding" in
  let rawBody := decompressResponse contentEncoding rawBodyResponse in
  let contentTypeData := getContentTypeData uri (res_headers response) rawBody in
  let charset := stringOr (ct_charset contentTypeData) "" in
  let mediaType := stringOr (ct_mediaType contentTypeData) "" in
  let hops := rm_calculate redirects uriString in
  let body :=
    match rawBody with
    | Some b => if encodingExists charset then ContentText (iconv_decode b charset)
                else ContentNull
    | None => ContentNull
    end in
  {| nd_request := {|
       request_headers := req_headers response;
       request_url := firstHopOr hops uriString
     |};
     nd_response := {|
       response_body := {|
         content := body;
         rawContent := rawBody;
         rawResponse := rawBodyResponse
       |};
       charset := charset;
       response_headers := res_headers response;
       hops := hops;
       mediaType := mediaType;
       response_statusCode := statusCode response;
       response_url := uriString
     |}
  |}.

(** [getUri(uriString)] inside [get(uri)] of an instance with options
    [options] and limit [max]. Each level of the recursion uses one unit of
    fuel. The callback of [this._request] runs on ['complete'], after the
    ['end'] handler of the response stream has set [rawBodyResponse] to
    [Buffer.concat(byteChunks)]. *)
Fixpoint getUri (fuel : nat) (options : CoreOptions) (max : Z) (uri : string)
    (s : Session R) (uriString : string) : Outcome * Session R :=
  match fuel with
  | O => (Unfinished, s)
  | S fuel' =>
      let s1 := visit s uriString in
      match request options uriString with
      | inl err => (Rejected (NetworkError err uriString), s1)
      | inr response =>
          if isValidRedirect (statusCode response) then
            match res_headers response !! "location" with
            | None => (Rejected (MissingLocationError uriString), s1)
            | Some location =>
                if negb (JsString.truthy location)
                then (Rejected (MissingLocationError uriString), s1)
                else
                  let newUri := url_resolve uriString location in
                  if decide (newUri ∈ requestedUrls s1)
                  then (Rejected (RedirectLoopError uriString
                                    (stringOr (method options) "GET")), s1)
                  else
                    let s2 := record s1 newUri uriString in
                    let currentRedirectNumber :=
                      length (rm_calculate (redirects s2) newUri) in
                    if (Z.of_nat currentRedirectNumber >? max)%Z
                    then (Rejected (TooManyRedirectsError currentRedirectNumber max), s2)
                    else getUri fuel' options max uri s2 newUri
            end
          else
            (Resolved (terminalData (redirects s1) uri uriString response
                         (Buffer_concat (chunks response))), s1)
      end
  end.

(** [get(uri)] on the instance [this]: the outcome, the instance afterwards
    and the requests made. *)
Definition get (fuel : nat) (this : Requester R) (uri : string)
  : Outcome * Requester R * list string :=
  if JsString.startsWith "data:" uri
  then (getResourceNetworkDataFromDataUri uri, this, [])
  else
    let '(outcome, s) :=
      getUri fuel (_options this) (_maxRedirects this) uri
        {| requestedUrls := ∅; redirects := _redirects this; issued := [] |} uri in
    (outcome,
     {| _redirects := redirects s;
        _maxRedirects := _maxRedirects this;
        _options := _options this |},
     issued s).

End Get.

(** ** Following redirects: what the server does *)

Section Servers.
Context `{Collaborators}.

(** The request for [u] is answered with a redirect we follow whose
    [Location], resolved against [u], is [v]. *)
Definition redirectsTo (options : CoreOptions) (u v : string) : Prop :=
  exists response location,
    request options u = inr response
    /\ isValidRedirect (statusCode response) = true
    /\ res_headers response !! "location" = Some location
    /\ JsString.truthy location = true
    /\ url_resolve u location = v.

(** The request for [u] is answered with [response], which is terminal. *)
Definition answers (options : CoreOptions) (u : string) (response : Response) : Prop :=
  request options u = inr response
  /\ isValidRedirect (statusCode response) = false.

(** Each URI of [cur :: rest] redirects to the next. *)
Fixpoint chainFrom (options : CoreOptions) (cur : string) (rest : list string) : Prop :=
  match rest with
  | [] => True
  | next :: rest' => redirectsTo options cur next /\ chainFrom options next rest'
  end.

End Servers.


(** Two outcomes that differ at most in what was made of the body: the same
    failure, or results from the same URI with the same wire bytes. *)
Definition sameWire (o1 o2 : Outcome) : Prop :=
  match o1, o2 with
  | Resolved d1, Resolved d2 =>
      response_url (nd_response d1) = response_url (nd_response d2)
      /\ rawResponse (response_body (nd_response d1))
         = rawResponse (response_body (nd_response d2))
  | Rejected e1, Rejected e2 => e1 = e2
  | Unfinished, Unfinished => True
  | _, _ => False
  end.

(** The manager after [getUri] has followed [cur :: rest]: one
    [this._redirects.add(next, cur)] per redirect, in order. *)
Fixpoint recordChain {R} `{RedirectManager R} (m : R) (cur : string)
    (rest : list string) : R :=
  match rest with
  | [] => m
  | next :: rest' => recordChain (rm_add next cur m) next rest'
  end.

(** The numbers [getUri] compares with the limit while it follows
    [cur :: rest]: for each redirect, [this._redirects.calculate(next).length]
    on the manager with the edge to [next] just added. *)
Fixpoint countsAlong {R} `{RedirectManager R} (m : R) (cur : string)
    (rest : list string) : list nat :=
  match rest with
  | [] => []
  | next :: rest' =>
      length (rm_calculate (rm_add next cur m) next)
      :: countsAlong (rm_add next cur m) next rest'
  end.

Section LastStep.
Context `{Codecs} `{Collaborators} {R : Type} `{RedirectManager R}.

(** What the outcome [o] of a call says of its last request, the one for
    [lastUri]: [m] is the manager when that request is made, [m'] the
    manager the call leaves, [visited] the URIs requested in the call. One
    case per exit of the request callback. *)
Definition lastStep (options : CoreOptions) (max : Z) (uri : string) (m m' : R)
    (lastUri : string) (visited : gset string) (o : Outcome) : Prop :=
  match o with
  | Resolved d =>
      m' = m
      /\ exists response,
           answers options lastUri response
           /\ d = terminalData m uri lastUri response (Buffer_concat (chunks response))
  | Rejected (NetworkError err u) =>
      m' = m /\ u = lastUri /\ request options lastUri = inl err
  | Rejected (MissingLocationError u) =>
      m' = m /\ u = lastUri
      /\ exists response,
           request options lastUri = inr response
           /\ isValidRedirect (statusCode response) = true
           /\ stringOr (res_headers response !! "location") "" = ""
  | Rejected (RedirectLoopError u method_) =>
      m' = m /\ u = lastUri
      /\ method_ = stringOr (method options) "GET"
      /\ exists target, redirectsTo options lastUri target /\ target ∈ visited
  | Rejected (TooManyRedirectsError n limit) =>
      limit = max
      /\ exists target,
           redirectsTo options lastUri target
           /\ (target ∉ visited)
           /\ m' = rm_add target lastUri m
           /\ n = length (rm_calculate m' target)
           /\ (max < Z.of_nat n)%Z
  | Rejected (MalformedDataUriError _) => False
  | Unfinished => False
  end.

End LastStep.

(** ** RedirectManager *)

Module SpecRedirects.

(** Modelled from the spec: [add(target, source)] of the class
    [RedirectManager] ([./redirects], not among the sources), whose state is
    "a mapping from URI to URI-that-redirected-to-it"; [add]
    "stores/overwrites the predecessor of [target]". *)
Definition add (target source : string) (m : gmap string string)
  : gmap string string :=
  <[target := source]> m.

(** Modelled from the spec: the walk of the missing [calculate], "walking
    predecessor links until none exists", at most [bound] links; [acc] holds
    the URIs already walked, the latest ancestor first. *)
Fixpoint walk (m : gmap string string) (bound : nat) (uri : string)
    (acc : list string) : list string :=
  match bound with
  | O => uri :: acc
  | S bound' =>
      match m !! uri with
      | Some source => walk m bound' source (uri :: acc)
      | None => uri :: acc
      end
  end.

(** Modelled from the spec: [calculate(uri)] of the missing
    [RedirectManager], "the ordered sequence of URIs from the earliest
    recorded ancestor down to [uri] inclusive", which "must terminate even
    if a cycle exists in stored data by bounding the walk". The spec leaves
    the bound open; the number of stored links is taken, which cuts no
    acyclic walk short. *)
Definition calculate (m : gmap string string) (uri : string) : list string :=
  walk m (size m) uri [].

(** [vis] lists the recorded ancestors of [cur], the nearest first, and the
    last of them has none. *)
Fixpoint pathTo (m : gmap string string) (cur : string) (vis : list string) : Prop :=
  match vis with
  | [] => m !! cur = None
  | prev :: vis' => m !! cur = Some prev /\ pathTo m prev vis'
  end.

(** Each of [cur :: vis] but the last has the next as its recorded
    predecessor; the last may have ancestors of its own. *)
Fixpoint linked (m : gmap string string) (cur : string) (vis : list string) : Prop :=
  match vis with
  | [] => True
  | prev :: vis' => m !! cur = Some prev /\ linked m prev vis'
  end.

End SpecRedirects.

(** Modelled from the spec: the [RedirectManager] of [./redirects] as an
    instance of the interface; a new manager has recorded nothing. *)
#[export] Instance specRedirectManager : RedirectManager (gmap string string) := {|
  rm_new := ∅;
  rm_add := SpecRedirects.add;
  rm_calculate := SpecRedirects.calculate
|}.

(** The state of a call that is about to ask for [cur], having asked for
    [vis] (the latest first) on a chain recorded hop by hop. *)
Definition tracking (s : Session (gmap string string)) (cur : string)
    (vis : list string) : Prop :=
  SpecRedirects.pathTo (redirects s) cur vis
  /\ requestedUrls s = list_to_set vis
  /\ issued s = rev vis.

(** The spec describes the chain of a URI in two ways. Section 4.1 and the
    chain example of section 8 include the URI itself ([SpecRedirects]
    above). Section 3 has [hops] "empty if no redirects occurred" with the
    origin URI as its "first hop", section 8 lets a limit of 10 be exceeded
    at the 11th redirect only, and [get] is written for that: it falls back
    on [uriString] when [hops[0]] is missing, and the data-URI path gives
    [hops: []]. [SpecAncestors] is this second reading. *)

Module SpecAncestors.

(** Modelled from the spec: the walk of the missing [calculate] over the
    "mapping from URI to URI-that-redirected-to-it", "walking predecessor
    links until none exists", at most [bound] links; [acc] holds the
    ancestors found so far, the earliest first. The URI itself is not put
    in the chain. *)
Fixpoint walk (m : gmap string string) (bound : nat) (uri : string)
    (acc : list string) : list string :=
  match bound with
  | O => acc
  | S bound' =>
      match m !! uri with
      | Some source => walk m bound' source (source :: acc)
      | None => acc
      end
  end.

(** Modelled from the spec: [calculate(uri)] of the missing
    [RedirectManager] as section 3 uses it, the URIs that led to [uri] from
    the earliest recorded ancestor to its immediate predecessor: "empty if
    no redirects occurred", the "first hop" being the origin URI. The walk is
    bounded by the number of stored links. *)
Definition calculate (m : gmap string string) (uri : string) : list string :=
  walk m (size m) uri [].

End SpecAncestors.

(** Modelled from the spec: the [RedirectManager] of [./redirects] with the
    chain of section 3; [add] is the one of section 4.1. It is passed by
    name where it is used. *)
Definition specAncestors : RedirectManager (gmap string string) := {|
  rm_new := ∅;
  rm_add := SpecRedirects.add;
  rm_calculate := SpecAncestors.calculate
|}.

(** ** A small world for examples

    Stand-ins for the libraries, to run the model on concrete inputs: codecs
    in which a compressed stream is a marker followed by the payload, and a
    server with a few fixed pages. *)

Module Example.

(** A stand-in decoder: it accepts a buffer that starts with [marker] and
    gives what follows. *)
Fixpoint stripPrefix (marker : list byte) (buff : Buffer) : option Buffer :=
  match marker, buff with
  | [], _ => Some buff
  | m :: marker', b :: buff' =>
      if Byte.eqb m b then stripPrefix marker' buff' else None
  | _ :: _, [] => None
  end.

Definition gzipMagic : list byte := [x1f; x8b].
Definition brotliMagic : list byte := [xce; xb2].
Definition zlibMagic : list byte := [x78; x9c].

#[export] Instance codecs : Codecs := {|
  decompressBrotli := stripPrefix brotliMagic;
  decompressGzip := stripPrefix gzipMagic;
  inflateAsync := stripPrefix zlibMagic;
  inflateRawAsync := fun _ => None
|}.

(** The matching stand-in encoders. *)
Definition gzip (b : Buffer) : Buffer := gzipMagic ++ b.
Definition brotli (b : Buffer) : Buffer := brotliMagic ++ b.

Definition hello : Buffer := list_byte_of_string "Hello".

(** A 302 answer with a [Location] header, and a 200 answer with a body. *)
Definition redirectTo (location : string) : Response := {|
  statusCode := 302;
  res_headers := {[ "location" := location ]};
  req_headers := ∅;
  chunks := []
|}.

Definition page (hdrs : HttpHeaders) (body : list Buffer) : Response := {|
  statusCode := 200;
  res_headers := hdrs;
  req_headers := ∅;
  chunks := body
|}.

(** [http://chain/0] redirects to [http://chain/1], and so on up to
    [http://chain/11]: a chain of 11 redirects, ending in a page. *)
Definition chainUris : list string :=
  [ "http://chain/0"; "http://chain/1"; "http://chain/2"; "http://chain/3";
    "http://chain/4"; "http://chain/5"; "http://chain/6"; "http://chain/7";
    "http://chain/8"; "http://chain/9"; "http://chain/10"; "http://chain/11" ].

Definition redirectTable : list (string * string) :=
  [ ("http://loop/a", "http://loop/b");
    ("http://loop/b", "http://loop/a");
    ("http://site/start", "http://site/final") ]
  ++ zip chainUris (drop 1 chainUris).

Definition pages : list (string * Response) :=
  [ ("http://site/final",
     page {[ "content-encoding" := "gzip"; "charset" := "utf-8" ]}
       [gzipMagic; hello]);
    ("http://site/odd",
     page {[ "charset" := "x-made-up" ]} [hello]);
    ("http://chain/11", page ∅ [hello]) ].

Fixpoint assoc {A : Type} (key : string) (l : list (string * A)) : option A :=
  match l with
  | [] => None
  | (k, v) :: l' => if String.eqb key k then Some v else assoc key l'
  end.

Definition server (uri : string) : string + Response :=
  match assoc uri redirectTable with
  | Some location => inr (redirectTo location)
  | None =>
      match assoc uri pages with
      | Some response => inr response
      | None => inl "ENOTFOUND"
      end
  end.

Definition helloDataUri : string := "data:text/plain;charset=utf-8,Hello".

(** [key.toLowerCase()] on ASCII header names, and [toLowerCaseKeys]: every
    entry under its lower-cased key. *)
Definition lowerChar (c : ascii) : ascii :=
  let n := nat_of_ascii c in
  if Nat.leb 65 n && Nat.leb n 90 then ascii_of_nat (n + 32) else c.

Fixpoint lowerCase (s : string) : string :=
  match s with
  | EmptyString => EmptyString
  | String c s' => String (lowerChar c) (lowerCase s')
  end.

Definition lowerCaseKeys (hdrs : HttpHeaders) : HttpHeaders :=
  list_to_map (map (fun kv => (lowerCase kv.1, kv.2)) (map_to_list hdrs)).

(** What the parser gives for [helloDataUri]: the parameter [charset], the
    MIME type serialized with its parameter, and the body [Hello]. *)
Definition helloParsed : ParsedDataURL := {|
  mimeType := {| parameters := {[ "charset" := "utf-8" ]};
                 mime_toString := "text/plain;charset=utf-8" |};
  body := hello
|}.

#[export] Instance world : Collaborators := {|
  request := fun _ uri => server uri;
  url_resolve := fun _ location => location;
  normalizeHeaderValue := fun hdrs name => hdrs !! name;
  getContentTypeData := fun _ hdrs _ =>
    {| ct_charset := hdrs !! "charset"; ct_mediaType := hdrs !! "content-type" |};
  toLowerCaseKeys := lowerCaseKeys;
  encodingExists := fun name => String.eqb name "utf-8";
  iconv_decode := fun b _ => string_of_list_byte b;
  parseDataURL := fun uri =>
    if String.eqb uri helloDataUri then Some helloParsed else None
|}.

(** A requester made with no options, on the spec's [RedirectManager]. *)
Definition fresh : Requester (gmap string string) := constructor None.


(** Codecs that reject everything. *)
Definition failing : Codecs := {|
  decompressBrotli := fun _ => None;
  decompressGzip := fun _ => None;
  inflateAsync := fun _ => None;
  inflateRawAsync := fun _ => None
|}.

(** An options object that holds [headers] only. *)
Definition onlyHeaders (h : HttpHeaders) : CoreOptions := {|
  encoding := None;
  followRedirect := None;
  headers := Some h;
  jar := None;
  time := None;
  timeout := None;
  rejectUnauthorized := None;
  maxRedirects := None;
  method := None
|}.

(** An options object that holds [maxRedirects] only. *)
Definition onlyMaxRedirects (n : Z) : CoreOptions := {|
  encoding := None;
  followRedirect := None;
  headers := None;
  jar := None;
  time := None;
  timeout := None;
  rejectUnauthorized := None;
  maxRedirects := Some n;
  method := None
|}.

Ltac redirects_to location :=
  exists (redirectTo location), location;
  repeat split; vm_compute; reflexivity.

Ltac run_get :=
  match goal with
  | |- exists d this' log, ?call = _ /\ _ =>
      let v := eval vm_compute in call in
      match v with
      | (Resolved ?d, ?t, ?l) => exists d, t, l
      end
  end.

(** The example codecs with a brotli decoder that rejects everything. *)
Definition withoutBrotli : Codecs := {|
  decompressBrotli := fun _ => None;
  decompressGzip := stripPrefix gzipMagic;
  inflateAsync := stripPrefix zlibMagic;
  inflateRawAsync := fun _ => None
|}.

(** A 301 answer with no [Location] header, and a world whose server gives
    it for [http://site/lost]. *)
Definition lost : Response := {|
  statusCode := 301;
  res_headers := ∅;
  req_headers := ∅;
  chunks := []
|}.

Definition worldLost : Collaborators := {|
  request := fun _ uri =>
    if String.eqb uri "http://site/lost" then inr lost else server uri;
  url_resolve := fun _ location => location;
  normalizeHeaderValue := fun hdrs name => hdrs !! name;
  getContentTypeData := fun _ hdrs _ =>
    {| ct_charset := hdrs !! "charset"; ct_mediaType := hdrs !! "content-type" |};
  toLowerCaseKeys := lowerCaseKeys;
  encodingExists := fun name => String.eqb name "utf-8";
  iconv_decode := fun b _ => string_of_list_byte b;
  parseDataURL := fun _ => None
|}.

Ltac run_call :=
  match goal with
  | |- exists o this' log, ?call = _ /\ _ =>
      let v := eval vm_compute in call in
      match v with
      | (?o, ?t, ?l) => exists o, t, l
      end
  end.

End Example.


(** * Properties *)

(** ** Strings: [split] and [join] *)

Module JsStringFacts.
Import JsString.

Lemma split_not_nil sep s : split sep s <> [].
Proof.
  destruct s as [|c s]; simpl; [discriminate|].
  destruct (Ascii.eqb c sep); [discriminate|].
  destruct (split sep s); discriminate.
Qed.

Lemma split_free sep s : Forall (fun t => free_of sep t = true) (split sep s).
Proof.
  induction s as [|c s IH]; simpl.
  - repeat constructor.
  - destruct (Ascii.eqb c sep) eqn:E.
    + constructor; [reflexivity | exact IH].
    + destruct (split sep s) as [|t ts].
      * constructor; [simpl; rewrite E; reflexivity | constructor].
      * inversion IH; subst. constructor; [simpl; rewrite E | ]; assumption.
Qed.

Lemma split_app_free sep t s :
  free_of sep t = true ->
  split sep (t ++ String sep s) = t :: split sep s.
Proof.
  induction t as [|c t IH]; simpl; intros Hfree.
  - rewrite Ascii.eqb_refl. reflexivity.
  - apply andb_prop in Hfree as [Hc Ht].
    apply negb_true_iff in Hc. rewrite Hc, (IH Ht). reflexivity.
Qed.

Lemma split_free_id sep t : free_of sep t = true -> split sep t = [t].
Proof.
  induction t as [|c t IH]; simpl; intros Hfree; [reflexivity|].
  apply andb_prop in Hfree as [Hc Ht].
  apply negb_true_iff in Hc. rewrite Hc, (IH Ht). reflexivity.
Qed.

(** Splitting what [join] glued gives the items back. *)
Lemma split_join sep l :
  l <> [] -> Forall (fun t => free_of sep t = true) l ->
  split sep (join sep l) = l.
Proof.
  induction l as [|x rest IH]; intros Hne Hfree; [congruence|].
  inversion Hfree as [|? ? Hx Hrest]; subst.
  destruct rest as [|y rest'].
  - simpl. apply split_free_id, Hx.
  - change (join sep (x :: y :: rest')) with (x ++ String sep (join sep (y :: rest')))%string.
    rewrite (split_app_free _ _ _ Hx), IH; [reflexivity | discriminate | exact Hrest].
Qed.

Lemma join_empty sep l : l <> [] -> join sep l = EmptyString -> l = [EmptyString].
Proof.
  destruct l as [|x [|y rest]]; simpl; intros Hne Hj; [congruence | congruence |].
  destruct x; discriminate.
Qed.

Lemma trimEnd_idempotent s : trimEnd (trimEnd s) = trimEnd s.
Proof.
  induction s as [|c s IH]; [reflexivity|]. simpl.
  destruct (trimEnd s) as [|d t] eqn:E.
  - destruct (isWhiteSpace c) eqn:W; simpl; [reflexivity | rewrite W; reflexivity].
  - change (trimEnd (String c (String d t)))
      with (match trimEnd (String d t) with
            | EmptyString => if isWhiteSpace c then EmptyString else String c EmptyString
            | String a b => String c (String a b)
            end).
    rewrite IH. reflexivity.
Qed.

Lemma trimStart_head s :
  match trimStart s with
  | EmptyString => True
  | String c _ => isWhiteSpace c = false
  end.
Proof.
  induction s as [|c s IH]; simpl; [exact I|].
  destruct (isWhiteSpace c) eqn:W; [exact IH | exact W].
Qed.

Lemma trimStart_trimEnd t :
  match t with EmptyString => True | String c _ => isWhiteSpace c = false end ->
  trimStart (trimEnd t) = trimEnd t.
Proof.
  destruct t as [|c r]; [reflexivity|]. intros W. simpl.
  destruct (trimEnd r); rewrite ?W; simpl; rewrite W; reflexivity.
Qed.

(** [s.trim().trim()] is [s.trim()]. *)
Lemma trim_idempotent s : trim (trim s) = trim s.
Proof.
  unfold trim. rewrite (trimStart_trimEnd _ (trimStart_head s)).
  apply trimEnd_idempotent.
Qed.

End JsStringFacts.

(** ** The decompression cascade *)

Section Cascade.
Context `{Codecs}.

Lemma priorities_range name n : priorities name = JsNumber n -> (n <= 3)%nat.
Proof.
  unfold priorities.
  repeat (match goal with |- context [if ?b then _ else _] => destruct b end);
    intros [= <-]; lia.
Qed.

(** Whatever the token, the list of candidates ends with [identity]. *)
Lemma decompressors_end_identity algorithm :
  exists before, decompressors algorithm = before ++ [identity].
Proof.
  unfold decompressors.
  assert (Hnum : forall n, (n <= 3)%nat -> exists before,
    slice (JsNumber n) [decompressBrotli; decompressGzip; inflate; identity]
    = before ++ [identity]).
  { intros n Hn. destruct n as [|[|[|[|n]]]]; [| | | | lia]; simpl.
    - exists [decompressBrotli; decompressGzip; inflate]; reflexivity.
    - exists [decompressGzip; inflate]; reflexivity.
    - exists [inflate]; reflexivity.
    - exists []; reflexivity. }
  assert (Hall : forall v, (forall n, v = JsNumber n -> (n <= 3)%nat) -> exists before,
    slice v [decompressBrotli; decompressGzip; inflate; identity]
    = before ++ [identity]).
  { intros [k| |] Hv; [apply Hnum, Hv; reflexivity | |];
      exists [decompressBrotli; decompressGzip; inflate]; reflexivity. }
  destruct (priorities (JsString.trim algorithm));
    apply Hall; intros k; apply priorities_range.
Qed.

Lemma firstSuccess_app_identity before buff :
  firstSuccess (before ++ [identity]) buff
  = Some (default buff (firstSuccess before buff)).
Proof.
  induction before as [|d ds IH]; simpl; [reflexivity|].
  unfold tryToDecompress. destruct (d buff); [reflexivity | exact IH].
Qed.

(** One token never leaves the cascade without bytes. *)
Lemma firstSuccess_decompressors_total algorithm buff :
  is_Some (firstSuccess (decompressors algorithm) buff).
Proof.
  destruct (decompressors_end_identity algorithm) as [before ->].
  rewrite firstSuccess_app_identity. eauto.
Qed.

Lemma decompressAlgorithms_total rest : forall first buff,
  is_Some (decompressAlgorithms first rest buff).
Proof.
  induction rest as [|next rest IH]; intros first buff; simpl;
    destruct (firstSuccess_decompressors_total (JsString.trim first) buff) as [b ->];
    eauto.
Qed.

(** [decompressResponse] never resolves with [null] on a buffer. *)
Lemma decompressResponse_total contentEncoding buff :
  is_Some (decompressResponse contentEncoding buff).
Proof.
  unfold decompressResponse.
  destruct (algorithmsOf contentEncoding) as [|first rest] eqn:E.
  - exfalso. unfold algorithmsOf in E.
    destruct contentEncoding as [s|]; [|discriminate].
    destruct (JsString.truthy s); [|discriminate].
    exact (JsStringFacts.split_not_nil _ _ E).
  - apply decompressAlgorithms_total.
Qed.

Lemma algorithmsOf_free contentEncoding :
  Forall (fun t => JsString.free_of comma t = true) (algorithmsOf contentEncoding).
Proof.
  unfold algorithmsOf. destruct contentEncoding as [s|].
  - destruct (JsString.truthy s); [apply JsStringFacts.split_free|].
    repeat constructor.
  - repeat constructor.
Qed.

(** [algorithms.join(',')], split again by the recursive call, is the list
    that was joined. *)
Lemma algorithmsOf_join rest :
  rest <> [] -> Forall (fun t => JsString.free_of comma t = true) rest ->
  algorithmsOf (Some (JsString.join comma rest)) = rest.
Proof.
  intros Hne Hfree. unfold algorithmsOf, JsString.truthy.
  destruct (String.eqb_spec (JsString.join comma rest) EmptyString) as [E|E]; simpl.
  - symmetry. apply (JsStringFacts.join_empty comma); assumption.
  - apply JsStringFacts.split_join; assumption.
Qed.

(** The recursion of the source: [decompressResponse] runs the cascade of
    the first token and, when tokens remain, calls itself on their join. *)
Lemma decompressResponse_unfold contentEncoding rawBodyResponse :
  decompressResponse contentEncoding rawBodyResponse =
  match algorithmsOf contentEncoding with
  | [] => None
  | first :: rest =>
      match firstSuccess (decompressors (JsString.trim first)) rawBodyResponse with
      | Some rawBody =>
          match rest with
          | [] => Some rawBody
          | _ :: _ => decompressResponse (Some (JsString.join comma rest)) rawBody
          end
      | None => None
      end
  end.
Proof.
  unfold decompressResponse at 1.
  pose proof (algorithmsOf_free contentEncoding) as Hfree.
  destruct (algorithmsOf contentEncoding) as [|first rest]; [reflexivity|].
  inversion Hfree as [|? ? _ Hrest]; subst.
  destruct rest as [|next rest']; cbn [decompressAlgorithms].
  - destruct (firstSuccess _ _); reflexivity.
  - destruct (firstSuccess (decompressors (JsString.trim first)) rawBodyResponse);
      [|reflexivity].
    unfold decompressResponse.
    rewrite algorithmsOf_join; [reflexivity | discriminate | exact Hrest].
Qed.

End Cascade.

Section CascadeTokens.
Context `{Codecs}.

Lemma decompressors_br :
  decompressors "br" = [decompressBrotli; decompressGzip; inflate; identity].
Proof. reflexivity. Qed.

Lemma decompressors_gzip :
  decompressors "gzip" = [decompressGzip; inflate; identity].
Proof. reflexivity. Qed.

Lemma decompressors_deflate : decompressors "deflate" = [inflate; identity].
Proof. reflexivity. Qed.

Lemma decompressors_identity : decompressors "identity" = [identity].
Proof. reflexivity. Qed.

(** A token whose trimmed form is no property of [priorities] at all starts
    at [identity]. *)
Lemma decompressors_undefined algorithm :
  priorities (JsString.trim algorithm) = JsUndefined ->
  decompressors algorithm = [identity].
Proof. intros E. unfold decompressors. rewrite E. reflexivity. Qed.

(** A single token with no comma: the cascade of that token alone. *)
Lemma decompressResponse_single token buff :
  JsString.truthy token = true -> JsString.free_of comma token = true ->
  decompressResponse (Some token) buff
  = firstSuccess (decompressors (JsString.trim token)) buff.
Proof.
  intros Ht Hfree. unfold decompressResponse, algorithmsOf.
  rewrite Ht, (JsStringFacts.split_free_id _ _ Hfree). simpl.
  destruct (firstSuccess _ _); reflexivity.
Qed.

(** Declared [br], bytes that brotli rejects and gzip accepts: the gzip
    fallback gives the result. *)
Lemma decompressResponse_br_falls_back_to_gzip wire out :
  decompressBrotli wire = None -> decompressGzip wire = Some out ->
  decompressResponse (Some "br") wire = Some out.
Proof.
  intros Hbr Hgz. rewrite decompressResponse_single by reflexivity.
  change (JsString.trim "br") with "br". rewrite decompressors_br.
  simpl. unfold tryToDecompress. rewrite Hbr, Hgz. reflexivity.
Qed.

(** A token [priorities] knows nothing of, inherited names included, gives a
    copy of the bytes. *)
Lemma decompressResponse_unrecognized token buff :
  JsString.truthy token = true -> JsString.free_of comma token = true ->
  priorities (JsString.trim token) = JsUndefined ->
  decompressResponse (Some token) buff = Some buff.
Proof.
  intros Ht Hfree Hu. rewrite decompressResponse_single by assumption.
  rewrite decompressors_undefined; [reflexivity|].
  rewrite JsStringFacts.trim_idempotent. exact Hu.
Qed.

End CascadeTokens.

Section CascadeOrder.
Context `{Codecs}.

(** C1, the code where it departs from the reverse order. The declaration is
    [gzip, br] and the wire bytes are what gzip-then-brotli compression
    produces: the gzip and inflate decoders reject them and the brotli
    decoder gives [inner], the gzip stream. [decompressResponse] takes the
    tokens from the left: the [gzip] cascade falls through to the copy, the
    [br] cascade then undoes brotli, and the result is [inner], still
    gzip-compressed; gzip is never undone. *)
Theorem decompressResponse_gzip_br_declaration_order (wire inner : Buffer) :
  decompressGzip wire = None ->
  inflate wire = None ->
  decompressBrotli wire = Some inner ->
  decompressResponse (Some "gzip, br") wire = Some inner.
Proof.
  intros Hgz Hinf Hbr. unfold decompressResponse.
  change (algorithmsOf (Some "gzip, br")) with ["gzip"; " br"].
  cbn [decompressAlgorithms].
  change (JsString.trim "gzip") with "gzip".
  change (JsString.trim " br") with "br".
  rewrite decompressors_gzip, decompressors_br.
  cbn [firstSuccess]. unfold tryToDecompress.
  rewrite Hgz, Hinf. cbn [identity]. rewrite Hbr. reflexivity.
Qed.

(** C2, the code at a token it does not send to [identity]. [constructor] is no
    encoding the code defines, yet [priorities["constructor"]] is the
    inherited [Object] function, not [undefined]: the cascade for this token
    starts at brotli, not at [identity]; with the example codecs, gzip bytes
    declared [constructor] come back decompressed and not as a copy. *)
Theorem decompressResponse_constructor_token :
  (forall buff : Buffer,
     decompressResponse (Some "constructor") buff
     = firstSuccess [decompressBrotli; decompressGzip; inflate; identity] buff)
  /\ @decompressResponse Example.codecs (Some "constructor")
       (Example.gzip Example.hello) = Some Example.hello.
Proof.
  split; [intros buff | reflexivity].
  rewrite decompressResponse_single by reflexivity. reflexivity.
Qed.

End CascadeOrder.


Section GetSteps.
Context `{Codecs} `{Collaborators} {R : Type} `{RedirectManager R}.

Lemma getUri_terminal fuel options max uri (s : Session R) uriString response :
  answers options uriString response ->
  getUri (S fuel) options max uri s uriString
  = (Resolved (terminalData (redirects s) uri uriString response
                 (Buffer_concat (chunks response))),
     visit s uriString).
Proof. intros [Hreq Hterm]. simpl. rewrite Hreq, Hterm. reflexivity. Qed.

Lemma getUri_loop fuel options max uri (s : Session R) uriString newUri :
  redirectsTo options uriString newUri ->
  newUri ∈ requestedUrls (visit s uriString) ->
  getUri (S fuel) options max uri s uriString
  = (Rejected (RedirectLoopError uriString (stringOr (method options) "GET")),
     visit s uriString).
Proof.
  intros (response & location & Hreq & Hred & Hloc & Htruthy & <-) Hin.
  simpl. rewrite Hreq, Hred, Hloc, Htruthy. simpl.
  rewrite decide_True by exact Hin. reflexivity.
Qed.

Lemma getUri_hop fuel options max uri (s : Session R) uriString newUri :
  redirectsTo options uriString newUri ->
  newUri ∉ requestedUrls (visit s uriString) ->
  getUri (S fuel) options max uri s uriString
  = let s2 := record (visit s uriString) newUri uriString in
    let currentRedirectNumber := length (rm_calculate (redirects s2) newUri) in
    if (Z.of_nat currentRedirectNumber >? max)%Z
    then (Rejected (TooManyRedirectsError currentRedirectNumber max), s2)
    else getUri fuel options max uri s2 newUri.
Proof.
  intros (response & location & Hreq & Hred & Hloc & Htruthy & <-) Hin.
  simpl. rewrite Hreq, Hred, Hloc, Htruthy. simpl.
  rewrite decide_False by exact Hin. reflexivity.
Qed.

(** A resolved [getUri] ended at a terminal response, and its data is the
    terminal branch's, computed on the redirects as they are at the end. *)
Lemma getUri_resolved_inv fuel : forall options max uri (s s' : Session R) uriString d,
  getUri fuel options max uri s uriString = (Resolved d, s') ->
  exists final response,
    answers options final response
    /\ d = terminalData (redirects s') uri final response
             (Buffer_concat (chunks response)).
Proof.
  induction fuel as [|fuel IH]; intros options max uri s s' uriString d; simpl;
    [discriminate|].
  destruct (request options uriString) as [err|response] eqn:Hreq; [discriminate|].
  destruct (isValidRedirect (statusCode response)) eqn:Hred.
  - destruct (res_headers response !! "location") as [location|]; [|discriminate].
    destruct (negb (JsString.truthy location)); [discriminate|].
    destruct (decide _); [discriminate|].
    destruct (Z.of_nat _ >? max)%Z; [discriminate|]. apply IH.
  - intros [= <- <-]. exists uriString, response. repeat split; assumption.
Qed.

End GetSteps.

(** ** The wire bytes *)


Section WireBytes.
Context `{Collaborators} {R : Type} `{RedirectManager R}.
Variables C C' : Codecs.

(** The decoders have no say in which requests are made, how the call ends,
    or what the wire bytes of the result are. *)
Lemma getUri_codecs_irrelevant fuel : forall options max uri (s : Session R) uriString,
  snd (@getUri C _ _ _ fuel options max uri s uriString)
  = snd (@getUri C' _ _ _ fuel options max uri s uriString)
  /\ sameWire (fst (@getUri C _ _ _ fuel options max uri s uriString))
              (fst (@getUri C' _ _ _ fuel options max uri s uriString)).
Proof.
  induction fuel as [|fuel IH]; intros options max uri s uriString; simpl;
    [split; [reflexivity | exact I]|].
  destruct (request options uriString) as [err|response];
    [split; reflexivity|].
  destruct (isValidRedirect (statusCode response)).
  - destruct (res_headers response !! "location") as [location|];
      [|split; reflexivity].
    destruct (negb (JsString.truthy location)); [split; reflexivity|].
    destruct (decide _); [split; reflexivity|].
    destruct (Z.of_nat _ >? max)%Z; [split; reflexivity|]. apply IH.
  - split; [reflexivity | split; reflexivity].
Qed.

(** C3. A [get] of a URI that is no data URI resolved with [d]: the request
    for the URI [d] came from was answered with a terminal response, and
    [rawResponse] is exactly the concatenation of the chunks the transport
    delivered for it. The same call under any other decoders [C'], whatever
    they do to the body, makes the same requests, leaves the same instance
    and resolves with the same [rawResponse]. *)
Theorem get_rawResponse_is_wire_bytes fuel (this this' : Requester R) uri d log :
  JsString.startsWith "data:" uri = false ->
  @get C _ _ _ fuel this uri = (Resolved d, this', log) ->
  (exists response,
      answers (_options this) (response_url (nd_response d)) response
      /\ rawResponse (response_body (nd_response d))
         = Buffer_concat (chunks response))
  /\ (exists d',
      @get C' _ _ _ fuel this uri = (Resolved d', this', log)
      /\ rawResponse (response_body (nd_response d'))
         = rawResponse (response_body (nd_response d))).
Proof.
  unfold get. intros ->.
  pose proof (getUri_codecs_irrelevant fuel (_options this) (_maxRedirects this) uri
    {| requestedUrls := ∅; redirects := _redirects this; issued := [] |} uri)
    as [Hs Ho].
  destruct (@getUri C _ _ _ fuel _ _ _ _ _) as [o s] eqn:E.
  destruct (@getUri C' _ _ _ fuel _ _ _ _ _) as [o' s'] eqn:E'.
  simpl in Hs, Ho. subst s'. intros [= -> <- <-].
  split.
  - destruct (getUri_resolved_inv _ _ _ _ _ _ _ _ E) as (final & response & Hans & ->).
    exists response. split; [exact Hans | reflexivity].
  - destruct o' as [d'| |]; simpl in Ho; try contradiction.
    destruct Ho as [_ Hraw]. exists d'. split; [reflexivity | symmetry; exact Hraw].
Qed.

End WireBytes.

(** ** Results of [get] with an abstract [RedirectManager] *)

Section GetResults.
Context `{Codecs} `{Collaborators} {R : Type} `{RedirectManager R}.

Lemma terminalData_content redirects uri uriString response raw :
  let d := terminalData redirects uri uriString response raw in
  (forall text, content (response_body (nd_response d)) = ContentText text ->
     encodingExists (charset (nd_response d)) = true)
  /\ (encodingExists (charset (nd_response d)) = false ->
      content (response_body (nd_response d)) = ContentNull
      /\ is_Some (rawContent (response_body (nd_response d)))).
Proof.
  simpl.
  destruct (decompressResponse_total
              (normalizeHeaderValue (res_headers response) "content-encoding") raw)
    as [b Hb].
  rewrite Hb. split.
  - intros text. destruct (encodingExists _); [reflexivity | discriminate].
  - intros ->. split; [reflexivity | eauto].
Qed.

(** C7. In every result of a [get] that is no data URI, the decoded text is
    there only if [iconv.encodingExists] accepts the resolved charset; with
    a charset it does not accept, [content] is [null] and [rawContent] holds
    the decompressed bytes. And a terminal response resolves the call
    whatever its charset: no branch of the terminal step rejects. *)
Theorem get_content_only_for_supported_charset :
  (forall fuel (this this' : Requester R) uri d log,
     JsString.startsWith "data:" uri = false ->
     get fuel this uri = (Resolved d, this', log) ->
     (forall text, content (response_body (nd_response d)) = ContentText text ->
        encodingExists (charset (nd_response d)) = true)
     /\ (encodingExists (charset (nd_response d)) = false ->
         content (response_body (nd_response d)) = ContentNull
         /\ is_Some (rawContent (response_body (nd_response d)))))
  /\ (forall fuel options max uri (s : Session R) uriString response,
        answers options uriString response ->
        exists d, getUri (S fuel) options max uri s uriString
                  = (Resolved d, visit s uriString)).
Proof.
  split.
  - intros fuel this this' uri d log Hnot. unfold get. rewrite Hnot.
    destruct (getUri _ _ _ _ _ _) as [o s] eqn:E. intros [= -> <- <-].
    destruct (getUri_resolved_inv _ _ _ _ _ _ _ _ E) as (final & response & _ & ->).
    apply terminalData_content.
  - intros fuel options max uri s uriString response Hans.
    eexists. apply getUri_terminal, Hans.
Qed.

(** C8, the code on a data URI. For a URI that starts with [data:] and
    that the parser reads, [get] resolves at once, with any fuel, with no
    request made and the instance as it was; the result has status 200, no
    request or response headers, no hops, the [charset] parameter as charset
    ([""] without one), the parser's [mimeType.toString()] as media type and
    the URI as request and response URL. The parsed body is the raw content
    and the raw response, and it is also what [content] holds
    ([parsedDataURL.body as any]): the bytes themselves, never a text. *)
Theorem get_data_uri fuel (this : Requester R) uri parsed :
  JsString.startsWith "data:" uri = true ->
  parseDataURL uri = Some parsed ->
  exists d,
    get fuel this uri = (Resolved d, this, [])
    /\ response_statusCode (nd_response d) = 200%Z
    /\ request_headers (nd_request d) = ∅
    /\ response_headers (nd_response d) = ∅
    /\ hops (nd_response d) = []
    /\ charset (nd_response d)
       = stringOr (parameters (mimeType parsed) !! "charset") ""
    /\ mediaType (nd_response d) = mime_toString (mimeType parsed)
    /\ content (response_body (nd_response d)) = ContentBody (body parsed)
    /\ (forall text, content (response_body (nd_response d)) <> ContentText text)
    /\ rawContent (response_body (nd_response d)) = Some (body parsed)
    /\ rawResponse (response_body (nd_response d)) = body parsed
    /\ request_url (nd_request d) = uri
    /\ response_url (nd_response d) = uri.
Proof.
  intros Hdata Hparse. exists (networkDataOfDataUrl uri parsed).
  unfold get, getResourceNetworkDataFromDataUri. rewrite Hdata, Hparse.
  repeat split; try reflexivity. intros text. discriminate.
Qed.

(** C4. A redirect whose resolved target is already in [requestedUrls]
    rejects with the redirect-loop message; the session shows the one
    request for the current URI and nothing after it, and no edge is
    recorded. So for a server that sends [a] to [b] and [b] back to [a], on
    an instance whose limit admits the first hop, [get a] ends after exactly
    the requests for [a] and [b] with that rejection, for any fuel from 2
    on. *)
Theorem get_redirect_loop_rejected :
  (forall fuel options max uri (s : Session R) uriString newUri,
     redirectsTo options uriString newUri ->
     newUri ∈ ({[uriString]} ∪ requestedUrls s : gset string) ->
     getUri (S fuel) options max uri s uriString
     = (Rejected (RedirectLoopError uriString (stringOr (method options) "GET")),
        {| requestedUrls := {[uriString]} ∪ requestedUrls s;
           redirects := redirects s;
           issued := issued s ++ [uriString] |}))
  /\ (forall fuel (this : Requester R) a b,
        JsString.startsWith "data:" a = false ->
        a <> b ->
        redirectsTo (_options this) a b ->
        redirectsTo (_options this) b a ->
        (Z.of_nat (length (rm_calculate (rm_add b a (_redirects this)) b))
         <= _maxRedirects this)%Z ->
        get (S (S fuel)) this a
        = (Rejected (RedirectLoopError b (stringOr (method (_options this)) "GET")),
           {| _redirects := rm_add b a (_redirects this);
              _maxRedirects := _maxRedirects this;
              _options := _options this |},
           [a; b])).
Proof.
  split.
  - intros fuel options max uri s uriString newUri Hred Hin.
    apply (getUri_loop _ _ _ _ _ _ _ Hred Hin).
  - intros fuel this a b Hnot Hab Hgo Hback Hcount.
    unfold get. rewrite Hnot.
    rewrite (getUri_hop _ _ _ _ _ _ _ Hgo); cycle 1.
    { simpl. apply not_elem_of_union. split;
        [apply not_elem_of_singleton; congruence | apply not_elem_of_empty]. }
    cbv zeta. cbn [record visit redirects requestedUrls issued].
    destruct (Z.gtb_spec
      (Z.of_nat (length (rm_calculate (rm_add b a (_redirects this)) b)))
      (_maxRedirects this)) as [Hgt|_]; [lia|].
    rewrite (getUri_loop _ _ _ _ _ _ _ Hback); [reflexivity|].
    simpl. apply elem_of_union_r, elem_of_union_l, elem_of_singleton. reflexivity.
Qed.

End GetResults.

(** ** Construction *)

Section Construction.
Context `{Collaborators} {R : Type} `{RedirectManager R}.

(** C9, the code with and without an options object. With an options
    object, whatever it holds ([rejectUnauthorized: true] included), the
    effective options have [followRedirect] false and [rejectUnauthorized]
    false. With no options object the [if (customOptions)] block is skipped
    and the effective options are [defaults], which carry
    [followRedirect: false] but no [rejectUnauthorized]: certificate
    verification is not turned off. *)
Theorem constructor_forced_options :
  (forall customOptions : CoreOptions,
     followRedirect (_options (constructor (R:=R) (Some customOptions))) = Some false
     /\ rejectUnauthorized (_options (constructor (R:=R) (Some customOptions)))
        = Some false)
  /\ followRedirect (_options (constructor (R:=R) None)) = Some false
  /\ rejectUnauthorized (_options (constructor (R:=R) None)) = None.
Proof. repeat split. Qed.

(** C10. [maxRedirects: 0] leaves the limit at the default 10; a positive
    [maxRedirects] becomes the limit. *)
Theorem constructor_maxRedirects_falsy_fallback (customOptions : CoreOptions) :
  (maxRedirects customOptions = Some 0%Z ->
   _maxRedirects (constructor (R:=R) (Some customOptions)) = 10%Z)
  /\ (forall n : Z, (0 < n)%Z -> maxRedirects customOptions = Some n ->
      _maxRedirects (constructor (R:=R) (Some customOptions)) = n).
Proof.
  split.
  - intros E. simpl. rewrite E. reflexivity.
  - intros n Hn E. simpl. rewrite E. simpl.
    destruct (Z.eqb_spec n 0); [lia | reflexivity].
Qed.

End Construction.

(** ** Hops of a result, abstractly *)

Section Hops.
Context `{Codecs} `{Collaborators} {R : Type} `{RedirectManager R}.

(** What the result of a [get] says of the chain: [hops] is what the
    manager, as the call leaves it, computes for the URI the response came
    from, and the request URL is its first item, or that URI. *)
Lemma get_hops_from_manager fuel (this this' : Requester R) uri d log :
  JsString.startsWith "data:" uri = false ->
  get fuel this uri = (Resolved d, this', log) ->
  hops (nd_response d)
  = rm_calculate (_redirects this') (response_url (nd_response d))
  /\ request_url (nd_request d)
     = firstHopOr (hops (nd_response d)) (response_url (nd_response d)).
Proof.
  intros Hnot. unfold get. rewrite Hnot.
  destruct (getUri _ _ _ _ _ _) as [o s] eqn:E. intros [= -> <- <-].
  destruct (getUri_resolved_inv _ _ _ _ _ _ _ _ E) as (final & response & _ & ->).
  split; reflexivity.
Qed.

End Hops.

(** ** The spec's RedirectManager: chains *)

Module SpecRedirectsFacts.
Import SpecRedirects.


Lemma walk_pathTo m vis : forall cur bound acc,
  pathTo m cur vis -> length vis <= bound ->
  walk m bound cur acc = rev vis ++ cur :: acc.
Proof.
  induction vis as [|prev vis IH]; intros cur bound acc Hpath Hlen; simpl in *.
  - destruct bound; simpl; [reflexivity | rewrite Hpath; reflexivity].
  - destruct Hpath as [Hcur Hpath].
    destruct bound as [|bound]; [lia|]. simpl. rewrite Hcur.
    rewrite (IH prev bound (cur :: acc) Hpath) by lia.
    rewrite <- app_assoc. reflexivity.
Qed.

Lemma pathTo_agree m m' vis : forall cur,
  (forall u, u ∈ cur :: vis -> m' !! u = m !! u) ->
  pathTo m cur vis -> pathTo m' cur vis.
Proof.
  induction vis as [|prev vis IH]; intros cur Hagree; simpl.
  - intros Hcur. rewrite Hagree; [exact Hcur | apply list_elem_of_here].
  - intros [Hcur Hpath]. split.
    + rewrite Hagree; [exact Hcur | apply list_elem_of_here].
    + apply IH; [|exact Hpath].
      intros u Hu. apply Hagree. apply list_elem_of_further, Hu.
Qed.

Lemma pathTo_size m vis : forall cur,
  NoDup (cur :: vis) -> pathTo m cur vis -> length vis <= size m.
Proof.
  revert m. induction vis as [|prev vis IH]; intros m cur Hnd Hpath; simpl in *;
    [lia|].
  destruct Hpath as [Hcur Hpath].
  apply NoDup_cons in Hnd as [Hnotin Hnd].
  assert (Hdel : pathTo (delete cur m) prev vis).
  { apply (pathTo_agree m); [|exact Hpath].
    intros u Hu. apply lookup_delete_ne. intros ->. exact (Hnotin Hu). }
  specialize (IH _ _ Hnd Hdel).
  rewrite <- (insert_delete_id m cur prev Hcur).
  rewrite map_size_insert_None by apply lookup_delete_eq. lia.
Qed.

(** On a recorded chain with no repeat, [calculate] gives the whole chain,
    the earliest ancestor first and [cur] last. *)
Lemma calculate_pathTo m cur vis :
  NoDup (cur :: vis) -> pathTo m cur vis ->
  calculate m cur = rev vis ++ [cur].
Proof.
  intros Hnd Hpath. unfold calculate.
  apply walk_pathTo; [exact Hpath | exact (pathTo_size _ _ _ Hnd Hpath)].
Qed.

(** Recording the edge to a URI not yet on the chain extends the chain. *)
Lemma pathTo_add m cur vis new :
  new ∉ cur :: vis -> pathTo m cur vis ->
  pathTo (add new cur m) new (cur :: vis).
Proof.
  intros Hnew Hpath. simpl. unfold add. split; [apply lookup_insert_eq|].
  apply (pathTo_agree m); [|exact Hpath].
  intros u Hu. apply lookup_insert_ne. intros ->. exact (Hnew Hu).
Qed.

End SpecRedirectsFacts.

Section SpecChains.
Context `{Codecs} `{Collaborators}.
Import SpecRedirects SpecRedirectsFacts.


Lemma last_cons {A} (l : list A) : forall a d, List.last (a :: l) d = List.last l a.
Proof.
  induction l as [|b l IH]; intros a d; [reflexivity|].
  change (List.last (a :: b :: l) d) with (List.last (b :: l) d).
  rewrite (IH b d), (IH b a). reflexivity.
Qed.

Lemma NoDup_rev_list {A} (l : list A) : NoDup l -> NoDup (rev l).
Proof.
  intros Hnd. apply NoDup_ListNoDup, List.NoDup_rev, NoDup_ListNoDup, Hnd.
Qed.

Lemma rev_chain_ends (rest vis' : list string) u0 lst :
  rev rest ++ [u0] = lst :: vis' ->
  lst = List.last rest u0 /\ rev vis' ++ [lst] = u0 :: rest.
Proof.
  intros E.
  assert (E' : rev vis' ++ [lst] = u0 :: rest).
  { change (rev vis' ++ [lst]) with (rev (lst :: vis')). rewrite <- E.
    rewrite rev_app_distr, rev_involutive. reflexivity. }
  split; [|exact E'].
  rewrite <- (last_cons rest u0 u0), <- E'. symmetry. apply last_last.
Qed.

(** Following a chain that stays within the limit: [getUri] at the head of
    the chain comes down to [getUri] at its last URI, in a session that has
    recorded and requested exactly the chain before it. *)
Lemma getUri_follow_chain options max uri rest : forall cur vis s,
  tracking s cur vis ->
  chainFrom options cur rest ->
  NoDup (rev rest ++ cur :: vis) ->
  (Z.of_nat (length rest + length vis + 1) <= max)%Z ->
  exists s' lst vis',
    rev rest ++ cur :: vis = lst :: vis'
    /\ tracking s' lst vis'
    /\ forall f, getUri (length rest + f) options max uri s cur
                 = getUri f options max uri s' lst.
Proof.
  induction rest as [|next rest IH]; intros cur vis s Htrack Hchain Hnd Hmax.
  - exists s, cur, vis. repeat split; try apply Htrack.
  - destruct Hchain as [Hred Hchain].
    simpl rev in Hnd. rewrite <- app_assoc in Hnd. simpl in Hnd.
    pose proof (proj2 (proj1 (NoDup_app _ _) Hnd)) as [_ Hnd3].
    pose proof (NoDup_cons_1_1 _ _ Hnd3) as Hnew.
    pose proof (NoDup_cons_1_2 _ _ Hnd3) as Hnd2.
    destruct Htrack as (Hpath & Hreq & Hiss).
    set (s2 := record (visit s cur) next cur).
    assert (Htrack2 : tracking s2 next (cur :: vis)).
    { split; [|split].
      - apply pathTo_add; assumption.
      - simpl. rewrite Hreq. reflexivity.
      - simpl. rewrite Hiss. reflexivity. }
    destruct (IH next (cur :: vis) s2 Htrack2 Hchain)
      as (s' & lst & vis' & Heq & Htrack' & Hrun).
    { exact Hnd. }
    { simpl in *. lia. }
    exists s', lst, vis'. split; [|split; [exact Htrack'|]].
    + simpl rev. rewrite <- app_assoc. exact Heq.
    + intros f. change (length (next :: rest) + f) with (S (length rest + f)).
      rewrite (getUri_hop _ _ _ _ _ _ _ Hred); cycle 1.
      { simpl. rewrite Hreq. intros Hin. apply Hnew.
        apply elem_of_union in Hin as [Hin|Hin].
        - apply elem_of_singleton in Hin as ->. apply list_elem_of_here.
        - apply list_elem_of_further. apply elem_of_list_to_set in Hin. exact Hin. }
      cbv zeta. fold s2.
      destruct Htrack2 as (Hpath2 & _ & _).
      change (rm_calculate (redirects s2) next) with (calculate (redirects s2) next).
      rewrite (calculate_pathTo _ _ _ Hnd3 Hpath2).
      destruct (Z.gtb_spec (Z.of_nat (length (rev (cur :: vis) ++ [next]))) max)
        as [Hgt|_].
      * rewrite length_app, length_rev in Hgt. simpl in Hgt, Hmax. lia.
      * apply Hrun.
Qed.

(** A requester straight from the constructor, asked for the head of a
    chain of distinct URIs that ends, within the limit, in a terminal
    response: the requests are the chain, [hops] is the chain from the
    origin to the final URI inclusive, and the request URL is the origin. *)
Lemma get_fresh_chain_resolves customOptions fuel u0 rest response :
  let this : Requester (gmap string string) := constructor customOptions in
  JsString.startsWith "data:" u0 = false ->
  JsString.truthy u0 = true ->
  NoDup (u0 :: rest) ->
  chainFrom (_options this) u0 rest ->
  answers (_options this) (List.last rest u0) response ->
  (Z.of_nat (length rest + 1) <= _maxRedirects this)%Z ->
  length rest < fuel ->
  exists d this',
    get fuel this u0 = (Resolved d, this', u0 :: rest)
    /\ hops (nd_response d) = u0 :: rest
    /\ request_url (nd_request d) = u0
    /\ response_url (nd_response d) = List.last rest u0
    /\ getRedirects this' (List.last rest u0) = u0 :: rest.
Proof.
  intros this Hnot Htruthy Hnd Hchain Hans Hmax Hfuel.
  set (s0 := {| requestedUrls := (∅ : gset string);
                redirects := _redirects this; issued := [] |}).
  assert (Htrack0 : tracking s0 u0 []).
  { split; [|split]; try reflexivity.
    destruct customOptions; apply lookup_empty. }
  destruct (getUri_follow_chain (_options this) (_maxRedirects this) u0 rest
              u0 [] s0 Htrack0 Hchain)
    as (s' & lst & vis' & Heq & (Hpath & Hreq & Hiss) & Hrun).
  { change (rev rest ++ [u0]) with (rev (u0 :: rest)). apply NoDup_rev_list, Hnd. }
  { simpl. lia. }
  destruct (rev_chain_ends _ _ _ _ Heq) as [-> Hrev].
  assert (Hnd' : NoDup (List.last rest u0 :: vis')).
  { rewrite <- Heq. change (rev rest ++ [u0]) with (rev (u0 :: rest)).
    apply NoDup_rev_list, Hnd. }
  unfold get. rewrite Hnot. fold s0.
  replace fuel with (length rest + S (fuel - length rest - 1)) by lia.
  rewrite Hrun, (getUri_terminal _ _ _ _ _ _ _ Hans).
  eexists _, _. split; [|split; [|split; [|split]]].
  - simpl. rewrite Hiss, Hrev. reflexivity.
  - simpl. change (rm_calculate (redirects s') (List.last rest u0))
      with (calculate (redirects s') (List.last rest u0)).
    rewrite (calculate_pathTo _ _ _ Hnd' Hpath). exact Hrev.
  - simpl. change (rm_calculate (redirects s') (List.last rest u0))
      with (calculate (redirects s') (List.last rest u0)).
    rewrite (calculate_pathTo _ _ _ Hnd' Hpath), Hrev. simpl.
    rewrite Htruthy. reflexivity.
  - reflexivity.
  - unfold getRedirects. simpl.
    change (rm_calculate (redirects s') (List.last rest u0))
      with (calculate (redirects s') (List.last rest u0)).
    rewrite (calculate_pathTo _ _ _ Hnd' Hpath). exact Hrev.
Qed.

End SpecChains.

(** ** Following a chain of redirects, for any RedirectManager *)

Lemma requested_one (X : gset string) (c : string) :
  {[c]} ∪ X = list_to_set [c] ∪ X.
Proof. simpl. rewrite (right_id_L ∅ (∪)). reflexivity. Qed.

Lemma requested_more (X : gset string) (c : string) (rest : list string) :
  list_to_set rest ∪ ({[c]} ∪ X) = list_to_set (c :: rest) ∪ X.
Proof.
  simpl. rewrite (assoc_L (∪)), (comm_L (∪) (list_to_set rest) {[c]}).
  reflexivity.
Qed.

Section FollowChain.
Context `{Codecs} `{Collaborators} {R : Type} `{RedirectManager R}.


Lemma countsAlong_app (rest : list string) : forall (m : R) cur next,
  countsAlong m cur (rest ++ [next])
  = countsAlong m cur rest
    ++ [length (rm_calculate (recordChain m cur (rest ++ [next])) next)].
Proof.
  induction rest as [|x rest IH]; intros m cur next; [reflexivity|].
  change (countsAlong m cur ((x :: rest) ++ [next]))
    with (length (rm_calculate (rm_add x cur m) x)
          :: countsAlong (rm_add x cur m) x (rest ++ [next])).
  rewrite IH. reflexivity.
Qed.






End FollowChain.

(** ** The manager whose chains are the ancestors *)

Module SpecAncestorsFacts.
Import SpecRedirects SpecRedirectsFacts.

Lemma ancestors_walk m vis : forall cur bound acc,
  pathTo m cur vis -> length vis <= bound ->
  SpecAncestors.walk m bound cur acc = rev vis ++ acc.
Proof.
  induction vis as [|prev vis IH]; intros cur bound acc Hpath Hlen; simpl in *.
  - destruct bound; simpl; [reflexivity | rewrite Hpath; reflexivity].
  - destruct Hpath as [Hcur Hpath].
    destruct bound as [|bound]; [lia|]. simpl. rewrite Hcur.
    rewrite (IH prev bound (prev :: acc) Hpath) by lia.
    rewrite <- app_assoc. reflexivity.
Qed.

(** On a recorded chain with no repeat, [calculate] gives the ancestors of
    [cur], the earliest first, without [cur]. *)
Lemma ancestors_calculate m cur vis :
  NoDup (cur :: vis) -> pathTo m cur vis ->
  SpecAncestors.calculate m cur = rev vis.
Proof.
  intros Hnd Hpath. unfold SpecAncestors.calculate.
  rewrite (ancestors_walk m vis cur (size m) [] Hpath (pathTo_size _ _ _ Hnd Hpath)).
  apply app_nil_r.
Qed.

Lemma recordChain_pathTo (rest : list string) : forall m cur vis lst vis',
  NoDup (rev rest ++ cur :: vis) ->
  pathTo m cur vis ->
  rev rest ++ cur :: vis = lst :: vis' ->
  pathTo (@recordChain _ specAncestors m cur rest) lst vis'.
Proof.
  induction rest as [|next rest IH]; intros m cur vis lst vis' Hnd Hpath Heq.
  - injection Heq as <- <-. exact Hpath.
  - simpl rev in Hnd, Heq. rewrite <- app_assoc in Hnd, Heq. simpl in Hnd, Heq.
    apply (IH (add next cur m) next (cur :: vis)); [exact Hnd | | exact Heq].
    apply pathTo_add; [|exact Hpath].
    apply NoDup_app in Hnd as (_ & _ & Hnd). apply NoDup_cons in Hnd. apply Hnd.
Qed.

(** After the redirects of a chain of distinct URIs were recorded on a new
    manager, the chain of its last URI is the chain without that URI. *)
Lemma calculate_recordChain u0 (rest : list string) :
  NoDup (u0 :: rest) ->
  SpecAncestors.calculate (@recordChain _ specAncestors ∅ u0 rest) (List.last rest u0)
  = removelast (u0 :: rest).
Proof.
  intros Hnd.
  destruct (rev rest ++ [u0]) as [|lst vis'] eqn:Heq;
    [destruct (rev rest); discriminate Heq|].
  assert (Hnd' : NoDup (lst :: vis')).
  { rewrite <- Heq. change (rev rest ++ [u0]) with (rev (u0 :: rest)).
    apply NoDup_rev_list, Hnd. }
  destruct (rev_chain_ends _ _ _ _ Heq) as [-> Hrev].
  rewrite (ancestors_calculate _ _ vis' Hnd').
  - rewrite <- Hrev. symmetry. apply removelast_last.
  - apply (recordChain_pathTo rest ∅ u0 []); [|apply lookup_empty|exact Heq].
    rewrite Heq. exact Hnd'.
Qed.

(** Its counts along such a chain are the numbers of redirects followed. *)
Lemma countsAlong_recordChain u0 (rest : list string) :
  NoDup (u0 :: rest) ->
  @countsAlong _ specAncestors ∅ u0 rest = seq 1 (length rest).
Proof.
  induction rest as [|next rest IH] using rev_ind; intros Hnd; [reflexivity|].
  rewrite (@countsAlong_app _ specAncestors), length_app, Nat.add_comm, seq_S.
  assert (Hnd' : NoDup (u0 :: rest)).
  { change (u0 :: rest ++ [next]) with ((u0 :: rest) ++ [next]) in Hnd.
    apply NoDup_app in Hnd. apply Hnd. }
  rewrite (IH Hnd'). f_equal. f_equal.
  pose proof (calculate_recordChain u0 (rest ++ [next]) Hnd) as Hcalc.
  rewrite last_last in Hcalc.
  change (@rm_calculate _ specAncestors) with SpecAncestors.calculate.
  rewrite Hcalc.
  change (u0 :: rest ++ [next]) with ((u0 :: rest) ++ [next]).
  rewrite removelast_last. reflexivity.
Qed.

End SpecAncestorsFacts.

(** ** The redirect limit and the hops *)



(** ** Termination of [get] *)

Section Fuel.
Context `{Codecs} `{Collaborators} {R : Type} `{RedirectManager R}.

(** Fuel beyond what a call needs changes nothing. *)
Lemma getUri_more_fuel fuel : forall fuel' options max uri (s : Session R) uriString,
  fuel <= fuel' ->
  fst (getUri fuel options max uri s uriString) <> Unfinished ->
  getUri fuel' options max uri s uriString = getUri fuel options max uri s uriString.
Proof.
  induction fuel as [|fuel IH]; intros fuel' options max uri s uriString Hle Hfin;
    [simpl in Hfin; congruence|].
  destruct fuel' as [|fuel']; [lia|]. simpl in *.
  destruct (request options uriString) as [err|response]; [reflexivity|].
  destruct (isValidRedirect (statusCode response)); [|reflexivity].
  destruct (res_headers response !! "location") as [location|]; [|reflexivity].
  destruct (negb (JsString.truthy location)); [reflexivity|].
  destruct (decide _); [reflexivity|].
  destruct (Z.of_nat _ >? max)%Z; [reflexivity|].
  apply IH; [lia | exact Hfin].
Qed.

End Fuel.

Module SpecTermination.
Import SpecRedirects.

Lemma walk_length_acc m bound : forall uri acc,
  S (length acc) <= length (walk m bound uri acc).
Proof.
  induction bound as [|bound IH]; intros uri acc; simpl; [lia|].
  destruct (m !! uri) as [source|]; simpl; [|lia].
  specialize (IH source (uri :: acc)). simpl in IH. lia.
Qed.

(** The walk goes at least as far as the links it is known to find. *)
Lemma walk_length_linked m vis : forall cur bound acc,
  linked m cur vis ->
  Nat.min bound (length vis) + 1 + length acc <= length (walk m bound cur acc).
Proof.
  induction vis as [|prev vis IH]; intros cur bound acc Hlinked.
  - pose proof (walk_length_acc m bound cur acc). simpl. lia.
  - destruct Hlinked as [Hcur Hlinked].
    destruct bound as [|bound]; simpl; [lia|]. rewrite Hcur.
    specialize (IH prev bound (cur :: acc) Hlinked). simpl in IH. lia.
Qed.

Lemma linked_agree m m' vis : forall cur,
  (forall u, u ∈ cur :: vis -> m' !! u = m !! u) ->
  linked m cur vis -> linked m' cur vis.
Proof.
  induction vis as [|prev vis IH]; intros cur Hagree; simpl; [tauto|].
  intros [Hcur Hlinked]. split.
  - rewrite Hagree; [exact Hcur | apply list_elem_of_here].
  - apply IH; [|exact Hlinked].
    intros u Hu. apply Hagree. apply list_elem_of_further, Hu.
Qed.

Lemma linked_size m vis : forall cur,
  NoDup (cur :: vis) -> linked m cur vis -> length vis <= size m.
Proof.
  revert m. induction vis as [|prev vis IH]; intros m cur Hnd Hlinked; simpl in *;
    [lia|].
  destruct Hlinked as [Hcur Hlinked].
  apply NoDup_cons in Hnd as [Hnotin Hnd].
  assert (Hdel : linked (delete cur m) prev vis).
  { apply (linked_agree m); [|exact Hlinked].
    intros u Hu. apply lookup_delete_ne. intros ->. exact (Hnotin Hu). }
  specialize (IH _ _ Hnd Hdel).
  rewrite <- (insert_delete_id m cur prev Hcur).
  rewrite map_size_insert_None by apply lookup_delete_eq. lia.
Qed.

Lemma linked_add m cur vis new :
  new ∉ cur :: vis -> linked m cur vis -> linked (add new cur m) new (cur :: vis).
Proof.
  intros Hnew Hlinked. simpl. unfold add. split; [apply lookup_insert_eq|].
  apply (linked_agree m); [|exact Hlinked].
  intros u Hu. apply lookup_insert_ne. intros ->. exact (Hnew Hu).
Qed.

(** After [length vis] hops of one call, the hop count of a new target is at
    least [length vis + 2], whatever the manager held before the call. *)
Lemma calculate_after_hops m cur vis new :
  NoDup (new :: cur :: vis) -> linked m cur vis ->
  length vis + 2 <= length (calculate (add new cur m) new).
Proof.
  intros Hnd Hlinked. unfold calculate.
  pose proof (linked_add m cur vis new (NoDup_cons_1_1 _ _ Hnd) Hlinked) as Hl.
  pose proof (linked_size _ _ _ Hnd Hl) as Hsize.
  pose proof (walk_length_linked _ _ new (size (add new cur m)) [] Hl) as Hwalk.
  simpl in *. lia.
Qed.

Section Finishes.
Context `{Codecs} `{Collaborators}.

Lemma getUri_finishes fuel : forall options max uri
    (s : Session (gmap string string)) cur vis,
  linked (redirects s) cur vis ->
  requestedUrls s = list_to_set vis ->
  NoDup (cur :: vis) ->
  Z.to_nat max - length vis < fuel ->
  fst (getUri fuel options max uri s cur) <> Unfinished.
Proof.
  induction fuel as [|fuel IH]; intros options max uri s cur vis Hlinked Hreq Hnd Hfuel;
    [lia|].
  simpl.
  destruct (request options cur) as [err|response]; [discriminate|].
  destruct (isValidRedirect (statusCode response)); [|discriminate].
  destruct (res_headers response !! "location") as [location|]; [|discriminate].
  destruct (negb (JsString.truthy location)); [discriminate|].
  destruct (decide _) as [|Hnew]; [discriminate|].
  assert (Hnd' : NoDup (url_resolve cur location :: cur :: vis)).
  { apply NoDup_cons. split; [|exact Hnd].
    intros Hin. apply Hnew. rewrite Hreq.
    apply elem_of_cons in Hin as [->|Hin].
    - apply elem_of_union_l, elem_of_singleton. reflexivity.
    - apply elem_of_union_r, elem_of_list_to_set, Hin. }
  pose proof (calculate_after_hops _ _ _ _ Hnd' Hlinked) as Hcount.
  change (rm_calculate (rm_add ?n ?c ?m) ?u) with (calculate (add n c m) u).
  destruct (Z.gtb_spec
    (Z.of_nat (length (calculate (add (url_resolve cur location) cur (redirects s))
                         (url_resolve cur location)))) max) as [|Hle];
    [discriminate|].
  apply (IH _ _ _ _ _ (cur :: vis)).
  - apply linked_add; [exact (NoDup_cons_1_1 _ _ Hnd') | exact Hlinked].
  - simpl. rewrite Hreq. reflexivity.
  - exact Hnd'.
  - simpl. lia.
Qed.

(** On the spec's manager, whatever it recorded in earlier calls, [get]
    with more fuel than the redirect limit always finishes, and all such
    amounts of fuel give the same outcome, instance and requests. *)
Lemma get_finishes fuel (this : Requester (gmap string string)) uri :
  Z.to_nat (_maxRedirects this) < fuel ->
  fst (fst (get fuel this uri)) <> Unfinished
  /\ forall fuel', fuel <= fuel' -> get fuel' this uri = get fuel this uri.
Proof.
  intros Hfuel. unfold get.
  destruct (JsString.startsWith "data:" uri).
  - split; [|reflexivity].
    unfold getResourceNetworkDataFromDataUri. simpl.
    destruct (parseDataURL uri); discriminate.
  - pose proof (getUri_finishes fuel (_options this) (_maxRedirects this) uri
      {| requestedUrls := ∅; redirects := _redirects this; issued := [] |} uri [])
      as Hfin.
    assert (Hfin' : fst (getUri fuel (_options this) (_maxRedirects this) uri
      {| requestedUrls := ∅; redirects := _redirects this; issued := [] |} uri)
      <> Unfinished).
    { apply Hfin; [exact I | reflexivity | apply NoDup_singleton | simpl; lia]. }
    split.
    + destruct (getUri fuel _ _ _ _ _) as [o s]. exact Hfin'.
    + intros fuel' Hle. rewrite (getUri_more_fuel fuel fuel' _ _ _ _ _ Hle Hfin').
      reflexivity.
Qed.

End Finishes.

End SpecTermination.

(** ** Further properties of the cascade, the constructor and the chain *)

Section Further.
Context `{Codecs} `{Collaborators}.

(** [decompressResponse] never resolves with [null]: whatever the
    declaration and the decoders, the last candidate of every token is the
    copy. *)
Theorem decompressResponse_never_null contentEncoding (buff : Buffer) :
  exists rawBody, decompressResponse contentEncoding buff = Some rawBody.
Proof. apply decompressResponse_total. Qed.

(** Declared [br], actually gzip: brotli fails, gzip gives the bytes. *)
Theorem decompressResponse_declared_br_actual_gzip (wire out : Buffer) :
  decompressBrotli wire = None -> decompressGzip wire = Some out ->
  decompressResponse (Some "br") wire = Some out.
Proof. apply decompressResponse_br_falls_back_to_gzip. Qed.

(** A token that is no property of [priorities], own or inherited, gives a
    copy of the bytes. *)
Theorem decompressResponse_unknown_token_copies token (buff : Buffer) :
  JsString.truthy token = true -> JsString.free_of comma token = true ->
  priorities (JsString.trim token) = JsUndefined ->
  decompressResponse (Some token) buff = Some buff.
Proof. apply decompressResponse_unrecognized. Qed.

(** Tokens are consumed from the left: a declaration [first,rest] runs the
    cascade of [first] on the wire bytes and hands its result to the
    declaration [rest]. *)
Theorem decompressResponse_declaration_order first rest (wire mid : Buffer) :
  JsString.free_of comma first = true ->
  JsString.truthy rest = true ->
  firstSuccess (decompressors (JsString.trim first)) wire = Some mid ->
  decompressResponse (Some (first ++ String comma rest)%string) wire
  = decompressResponse (Some rest) mid.
Proof.
  intros Hfree Hrest Hmid. unfold decompressResponse at 1.
  assert (Halg : algorithmsOf (Some (first ++ String comma rest)%string)
                 = first :: JsString.split comma rest).
  { unfold algorithmsOf.
    replace (JsString.truthy (first ++ String comma rest)) with true
      by (destruct first; reflexivity).
    apply JsStringFacts.split_app_free, Hfree. }
  rewrite Halg.
  destruct (JsString.split comma rest) as [|next rest'] eqn:Esplit;
    [exfalso; exact (JsStringFacts.split_not_nil _ _ Esplit)|].
  cbn [decompressAlgorithms]. rewrite Hmid.
  unfold decompressResponse, algorithmsOf. rewrite Hrest, Esplit. reflexivity.
Qed.

(** Header precedence: with a [headers] option, every header the caller
    gives (keys lowered) is in the effective options with the caller's
    value, and every other default header (keys lowered) stays. *)
Theorem constructor_headers_caller_wins {R} `{RedirectManager R}
    (customOptions : CoreOptions) (h : HttpHeaders) :
  headers customOptions = Some h ->
  exists merged,
    headers (_options (constructor (R:=R) (Some customOptions))) = Some merged
    /\ (forall k v, toLowerCaseKeys h !! k = Some v -> merged !! k = Some v)
    /\ (forall k, toLowerCaseKeys h !! k = None ->
          merged !! k = toLowerCaseKeys defaultHeaders !! k).
Proof.
  intros Hh. exists (assignHeaders (toLowerCaseKeys defaultHeaders) (toLowerCaseKeys h)).
  split; [simpl; rewrite Hh; reflexivity|]. unfold assignHeaders. split.
  - intros k v Hk. apply lookup_union_Some_l, Hk.
  - intros k Hk. apply lookup_union_r, Hk.
Qed.

(** Redirect chain determinism on the spec's manager: after a fresh
    requester followed [u0 -> ... -> un], [getRedirects] of the final URI is
    the chain in order. *)
Theorem getRedirects_after_chain customOptions fuel u0 rest response :
  JsString.startsWith "data:" u0 = false ->
  JsString.truthy u0 = true ->
  NoDup (u0 :: rest) ->
  chainFrom (_options (constructor (R:=gmap string string) customOptions)) u0 rest ->
  answers (_options (constructor (R:=gmap string string) customOptions))
    (List.last rest u0) response ->
  (Z.of_nat (length rest + 1)
   <= _maxRedirects (constructor (R:=gmap string string) customOptions))%Z ->
  length rest < fuel ->
  exists d this',
    get fuel (constructor (R:=gmap string string) customOptions) u0
    = (Resolved d, this', u0 :: rest)
    /\ getRedirects this' (List.last rest u0) = u0 :: rest.
Proof.
  intros Hnot Htruthy Hnd Hchain Hans Hmax Hfuel.
  destruct (get_fresh_chain_resolves customOptions fuel u0 rest response
              Hnot Htruthy Hnd Hchain Hans Hmax Hfuel)
    as (d & this' & Hget & _ & _ & _ & Hred).
  exists d, this'. split; assumption.
Qed.

(** [get] terminates on the spec's manager: with more fuel than the
    redirect limit the call finishes, and more fuel changes nothing. *)
Theorem get_terminates fuel (this : Requester (gmap string string)) uri :
  Z.to_nat (_maxRedirects this) < fuel ->
  fst (fst (get fuel this uri)) <> Unfinished
  /\ forall fuel', fuel <= fuel' -> get fuel' this uri = get fuel this uri.
Proof. apply SpecTermination.get_finishes. Qed.

End Further.

(** ** The requests of one call *)

Section Trace.
Context `{Codecs} `{Collaborators} {R : Type} `{RedirectManager R}.

(** A finished [getUri] from [cur]: the requests it adds are [cur] and then
    a chain of redirects [rest] through URIs not requested before in the
    call, each once; the manager it meets at the last request has gained the
    edges of that chain and nothing else; and the outcome is what the last
    request led to. *)
Lemma getUri_trace fuel : forall options max uri (s s' : Session R) cur o,
  getUri fuel options max uri s cur = (o, s') ->
  o <> Unfinished ->
  exists rest,
    issued s' = issued s ++ cur :: rest
    /\ requestedUrls s' = list_to_set (cur :: rest) ∪ requestedUrls s
    /\ chainFrom options cur rest
    /\ Forall (fun x => (x ∉ requestedUrls s) /\ x <> cur) rest
    /\ NoDup rest
    /\ lastStep options max uri (recordChain (redirects s) cur rest) (redirects s')
         (List.last rest cur) (requestedUrls s') o.
Proof.
  induction fuel as [|fuel IH]; intros options max uri s s' cur o; simpl;
    [intros [= <- <-] Hfin; congruence|].
  destruct (request options cur) as [err|response] eqn:Hreq.
  { intros [= <- <-] _. exists []. simpl.
    repeat split; try constructor; try reflexivity; try assumption.
    apply requested_one. }
  destruct (isValidRedirect (statusCode response)) eqn:Hred; cycle 1.
  { intros [= <- <-] _. exists []. simpl.
    split; [reflexivity|]. split; [apply requested_one|].
    split; [exact I|]. split; [constructor|]. split; [constructor|].
    split; [reflexivity|]. exists response. repeat split; assumption. }
  destruct (res_headers response !! "location") as [location|] eqn:Hloc; cycle 1.
  { intros [= <- <-] _. exists []. simpl.
    split; [reflexivity|]. split; [apply requested_one|].
    split; [exact I|]. split; [constructor|]. split; [constructor|].
    split; [reflexivity|]. split; [reflexivity|].
    exists response. rewrite Hloc. repeat split; assumption. }
  destruct (JsString.truthy location) eqn:Htruthy; simpl; cycle 1.
  { intros [= <- <-] _. exists []. simpl.
    split; [reflexivity|]. split; [apply requested_one|].
    split; [exact I|]. split; [constructor|]. split; [constructor|].
    split; [reflexivity|]. split; [reflexivity|].
    exists response. rewrite Hloc. simpl. rewrite Htruthy.
    repeat split; assumption. }
  assert (Hto : redirectsTo options cur (url_resolve cur location)).
  { exists response, location. repeat split; assumption. }
  destruct (decide _) as [Hin|Hnew].
  { intros [= <- <-] _. exists []. simpl.
    split; [reflexivity|]. split; [apply requested_one|].
    split; [exact I|]. split; [constructor|]. split; [constructor|].
    split; [reflexivity|]. split; [reflexivity|]. split; [reflexivity|].
    exists (url_resolve cur location). split; [exact Hto | exact Hin]. }
  destruct (Z.of_nat _ >? max)%Z eqn:Hgt.
  { apply Z.gtb_lt in Hgt. intros [= <- <-] _. exists []. simpl.
    split; [reflexivity|]. split; [apply requested_one|].
    split; [exact I|]. split; [constructor|]. split; [constructor|].
    split; [reflexivity|].
    exists (url_resolve cur location). repeat split; assumption. }
  intros Hget Hfin.
  destruct (IH _ _ _ _ _ _ _ Hget Hfin)
    as (rest & Hiss & Hreqd & Hchain & Hfresh & Hnd & Hlast).
  simpl in Hiss, Hreqd, Hfresh, Hlast.
  exists (url_resolve cur location :: rest).
  split; [rewrite Hiss, <- app_assoc; reflexivity|].
  split; [rewrite Hreqd;
          exact (requested_more (requestedUrls s) cur
                   (url_resolve cur location :: rest))|].
  split; [split; assumption|].
  assert (Hnew' : (url_resolve cur location ∉ requestedUrls s)
                  /\ url_resolve cur location <> cur).
  { simpl in Hnew. split.
    - intros Hin. apply Hnew, elem_of_union_r, Hin.
    - intros Heq. apply Hnew, elem_of_union_l, elem_of_singleton, Heq. }
  split.
  { constructor; [exact Hnew'|].
    eapply Forall_impl; [exact Hfresh|]. intros x Hx'. destruct Hx' as [Hx _].
    split.
    - intros Hin. apply Hx, elem_of_union_r, Hin.
    - intros Heq. apply Hx, elem_of_union_l, elem_of_singleton, Heq. }
  split.
  { apply NoDup_cons. split; [|exact Hnd].
    intros Hin. rewrite Forall_forall in Hfresh.
    destruct (Hfresh _ Hin) as [_ Hne]. congruence. }
  rewrite last_cons. exact Hlast.
Qed.

End Trace.

Section CallResults.
Context `{Codecs} `{Collaborators} {R : Type} `{RedirectManager R}.

Lemma get_trace fuel (this this' : Requester R) uri o log :
  JsString.startsWith "data:" uri = false ->
  get fuel this uri = (o, this', log) ->
  o <> Unfinished ->
  exists rest,
    log = uri :: rest
    /\ NoDup log
    /\ chainFrom (_options this) uri rest
    /\ _options this' = _options this
    /\ _maxRedirects this' = _maxRedirects this
    /\ lastStep (_options this) (_maxRedirects this) uri
         (recordChain (_redirects this) uri rest) (_redirects this')
         (List.last rest uri) (list_to_set log) o.
Proof.
  intros Hnot. unfold get. rewrite Hnot.
  destruct (getUri _ _ _ _ _ _) as [o' s] eqn:E. intros [= -> <- <-] Hfin.
  destruct (getUri_trace _ _ _ _ _ _ _ _ E Hfin)
    as (rest & Hiss & Hreqd & Hchain & Hfresh & Hnd & Hlast).
  simpl in Hiss, Hreqd, Hlast. exists rest.
  split; [exact Hiss|]. split.
  { rewrite Hiss. apply NoDup_cons. split; [|exact Hnd].
    intros Hin. rewrite Forall_forall in Hfresh.
    destruct (Hfresh _ Hin) as [_ Hne]. congruence. }
  split; [exact Hchain|]. split; [reflexivity|]. split; [reflexivity|].
  simpl. rewrite Hiss. rewrite Hreqd in Hlast.
  change ({[uri]} ∪ list_to_set rest ∪ (∅ : gset string))
    with (list_to_set (uri :: rest) ∪ (∅ : gset string)) in Hlast.
  rewrite (right_id_L ∅ (∪)) in Hlast. exact Hlast.
Qed.

(** One call never asks for the same URI twice: the requests of a finished
    [get] start with [uri] itself, are pairwise distinct, and each was the
    redirect target of the one before; the call leaves the instance's
    options and limit as they were. *)
Theorem get_requests_are_a_chain_of_distinct_uris fuel (this this' : Requester R)
    uri o log :
  JsString.startsWith "data:" uri = false ->
  get fuel this uri = (o, this', log) ->
  o <> Unfinished ->
  exists rest,
    log = uri :: rest
    /\ NoDup log
    /\ chainFrom (_options this) uri rest
    /\ _options this' = _options this
    /\ _maxRedirects this' = _maxRedirects this.
Proof.
  intros Hnot Hget Hfin.
  destruct (get_trace _ _ _ _ _ _ Hnot Hget Hfin)
    as (rest & Hlog & Hnd & Hchain & Hopt & Hmax & _).
  exists rest. repeat split; assumption.
Qed.

(** A resolved [get] reports the last request: the response URL is the last
    URI requested, its answer was terminal, and status code, response
    headers and request headers are that answer's, unchanged. The manager
    the call leaves is the one it found after one [add] per redirect
    followed, in order. *)
Theorem get_resolved_reports_last_request fuel (this this' : Requester R) uri d log :
  JsString.startsWith "data:" uri = false ->
  get fuel this uri = (Resolved d, this', log) ->
  exists rest response,
    log = uri :: rest
    /\ response_url (nd_response d) = List.last rest uri
    /\ answers (_options this) (List.last rest uri) response
    /\ response_statusCode (nd_response d) = statusCode response
    /\ response_headers (nd_response d) = res_headers response
    /\ request_headers (nd_request d) = req_headers response
    /\ _redirects this' = recordChain (_redirects this) uri rest.
Proof.
  intros Hnot Hget.
  destruct (get_trace _ _ _ _ _ _ Hnot Hget)
    as (rest & Hlog & _ & _ & _ & _ & Hlast); [discriminate|].
  destruct Hlast as (Hm & response & Hans & ->).
  exists rest, response. repeat split; try assumption; apply Hans.
Qed.

(** Every rejection of a [get] that is no data URI is one of the four
    [reject] calls, and says what the last request met: a transport error
    for the URI it names; a followed redirect status with no usable
    [Location]; a redirect to a URI already requested in this call (no edge
    recorded); or a redirect to a new URI whose edge was recorded and whose
    hop count is over the limit. *)
Theorem get_rejection_cause fuel (this this' : Requester R) uri reason log :
  JsString.startsWith "data:" uri = false ->
  get fuel this uri = (Rejected reason, this', log) ->
  exists rest,
    log = uri :: rest
    /\ lastStep (_options this) (_maxRedirects this) uri
         (recordChain (_redirects this) uri rest) (_redirects this')
         (List.last rest uri) (list_to_set log) (Rejected reason).
Proof.
  intros Hnot Hget.
  destruct (get_trace _ _ _ _ _ _ Hnot Hget)
    as (rest & Hlog & _ & _ & _ & _ & Hlast); [discriminate|].
  exists rest. split; assumption.
Qed.

(** The fields of a result hang together: the status is none of the five
    redirect codes; [rawContent] is [decompressResponse] of the result's own
    [content-encoding] header and [rawResponse]; charset and media type are
    what [getContentTypeData] makes of the URI [get] was called with, the
    response headers and the decompressed bytes; and [content] is those
    bytes decoded with that charset when [iconv] knows it, [null]
    otherwise. *)
Theorem get_result_fields_consistent fuel (this this' : Requester R) uri d log :
  JsString.startsWith "data:" uri = false ->
  get fuel this uri = (Resolved d, this', log) ->
  isValidRedirect (response_statusCode (nd_response d)) = false
  /\ rawContent (response_body (nd_response d))
     = decompressResponse
         (normalizeHeaderValue (response_headers (nd_response d)) "content-encoding")
         (rawResponse (response_body (nd_response d)))
  /\ charset (nd_response d)
     = stringOr (ct_charset (getContentTypeData uri
                               (response_headers (nd_response d))
                               (rawContent (response_body (nd_response d))))) ""
  /\ mediaType (nd_response d)
     = stringOr (ct_mediaType (getContentTypeData uri
                                 (response_headers (nd_response d))
                                 (rawContent (response_body (nd_response d))))) ""
  /\ content (response_body (nd_response d))
     = match rawContent (response_body (nd_response d)) with
       | Some b =>
           if encodingExists (charset (nd_response d))
           then ContentText (iconv_decode b (charset (nd_response d)))
           else ContentNull
       | None => ContentNull
       end.
Proof.
  intros Hnot. unfold get. rewrite Hnot.
  destruct (getUri _ _ _ _ _ _) as [o s] eqn:E. intros [= -> <- <-].
  destruct (getUri_resolved_inv _ _ _ _ _ _ _ _ E)
    as (final & response & [_ Hterm] & ->).
  repeat split; [exact Hterm].
Qed.

Lemma get_negative_limit_step fuel (this : Requester R) uri target :
  JsString.startsWith "data:" uri = false ->
  (_maxRedirects this < 0)%Z ->
  redirectsTo (_options this) uri target ->
  target <> uri ->
  get (S fuel) this uri
  = (Rejected (TooManyRedirectsError
                 (length (rm_calculate (rm_add target uri (_redirects this)) target))
                 (_maxRedirects this)),
     {| _redirects := rm_add target uri (_redirects this);
        _maxRedirects := _maxRedirects this;
        _options := _options this |},
     [uri]).
Proof.
  intros Hnot Hneg Hto Hne. unfold get. rewrite Hnot.
  rewrite (getUri_hop _ _ _ _ _ _ _ Hto); cycle 1.
  { simpl. apply not_elem_of_union. split;
      [apply not_elem_of_singleton; exact Hne | apply not_elem_of_empty]. }
  cbv zeta. cbn [record visit redirects requestedUrls issued].
  destruct (Z.gtb_spec
    (Z.of_nat (length (rm_calculate (rm_add target uri (_redirects this)) target)))
    (_maxRedirects this)) as [_|Hle]; [reflexivity | lia].
Qed.

(** A negative [maxRedirects] is the setting that forbids redirects: the
    constructor takes it as the limit, and whatever the manager counts, the
    first redirect to another URI is recorded and then rejected, after the
    single request for [uri]. *)
Theorem get_negative_limit_rejects_first_redirect fuel
    (customOptions : CoreOptions) (n : Z) uri target :
  maxRedirects customOptions = Some n ->
  (n < 0)%Z ->
  JsString.startsWith "data:" uri = false ->
  redirectsTo (_options (constructor (R:=R) (Some customOptions))) uri target ->
  target <> uri ->
  exists count,
    get (S fuel) (constructor (R:=R) (Some customOptions)) uri
    = (Rejected (TooManyRedirectsError count n),
       {| _redirects := rm_add target uri rm_new;
          _maxRedirects := n;
          _options := _options (constructor (R:=R) (Some customOptions)) |},
       [uri]).
Proof.
  intros Hmax Hneg Hnot Hto Hne.
  assert (Hlimit : _maxRedirects (constructor (R:=R) (Some customOptions)) = n).
  { simpl. rewrite Hmax. simpl. destruct (Z.eqb_spec n 0); [lia | reflexivity]. }
  eexists.
  rewrite (get_negative_limit_step fuel _ uri target Hnot); [| |exact Hto|exact Hne].
  - rewrite Hlimit. reflexivity.
  - rewrite Hlimit. exact Hneg.
Qed.

End CallResults.

(** ** More on the cascade: white space, identity, order of candidates *)

Module TrimFacts.
Import JsString.

Lemma free_of_trimStart sep s : free_of sep s = true -> free_of sep (trimStart s) = true.
Proof.
  induction s as [|c s IH]; simpl; [reflexivity|]. intros Hfree.
  destruct (isWhiteSpace c); [|exact Hfree].
  apply andb_prop in Hfree as [_ Hs]. apply IH, Hs.
Qed.

Lemma free_of_trimEnd sep s : free_of sep s = true -> free_of sep (trimEnd s) = true.
Proof.
  induction s as [|c s IH]; simpl; [reflexivity|]. intros Hfree.
  apply andb_prop in Hfree as [Hc Hs]. specialize (IH Hs).
  destruct (trimEnd s) as [|d t].
  - destruct (isWhiteSpace c); [reflexivity|]. simpl. rewrite Hc. reflexivity.
  - change (free_of sep (String c (String d t)))
      with (negb (Ascii.eqb c sep) && free_of sep (String d t)).
    rewrite Hc, IH. reflexivity.
Qed.

Lemma free_of_trim sep s : free_of sep s = true -> free_of sep (trim s) = true.
Proof. intros Hfree. apply free_of_trimEnd, free_of_trimStart, Hfree. Qed.

End TrimFacts.

Section CascadeMore.
Context `{Codecs}.

Lemma decompressResponse_one_token token buff :
  JsString.free_of comma token = true ->
  decompressResponse (Some token) buff
  = firstSuccess (decompressors (JsString.trim token)) buff.
Proof.
  intros Hfree. destruct (JsString.truthy token) eqn:Ht.
  - apply decompressResponse_single; assumption.
  - unfold JsString.truthy in Ht. apply negb_false_iff, String.eqb_eq in Ht.
    subst token. reflexivity.
Qed.

Lemma algorithmsOf_not_nil contentEncoding : algorithmsOf contentEncoding <> [].
Proof.
  unfold algorithmsOf. destruct contentEncoding as [s|]; [|discriminate].
  destruct (JsString.truthy s); [apply JsStringFacts.split_not_nil | discriminate].
Qed.

(** White space around a token does not count: [" gzip "] is [gzip]. *)
Theorem decompressResponse_ignores_surrounding_space token (buff : Buffer) :
  JsString.free_of comma token = true ->
  decompressResponse (Some token) buff
  = decompressResponse (Some (JsString.trim token)) buff.
Proof.
  intros Hfree.
  rewrite (decompressResponse_one_token token) by exact Hfree.
  rewrite (decompressResponse_one_token (JsString.trim token))
    by (apply TrimFacts.free_of_trim, Hfree).
  rewrite JsStringFacts.trim_idempotent. reflexivity.
Qed.

Lemma decompressors_identity_token token :
  priorities (JsString.trim token) = JsUndefined \/ JsString.trim token = "identity" ->
  decompressors (JsString.trim token) = [identity].
Proof.
  intros [Hu|Hid].
  - apply decompressors_undefined. rewrite JsStringFacts.trim_idempotent. exact Hu.
  - rewrite Hid. reflexivity.
Qed.

Lemma decompressAlgorithms_identity rest : forall first buff,
  Forall (fun t => priorities (JsString.trim t) = JsUndefined
                   \/ JsString.trim t = "identity") (first :: rest) ->
  decompressAlgorithms first rest buff = Some buff.
Proof.
  induction rest as [|next rest IH]; intros first buff Hall;
    inversion Hall as [|? ? Hfirst Hrest]; subst; simpl;
    rewrite (decompressors_identity_token _ Hfirst); simpl.
  - reflexivity.
  - apply IH, Hrest.
Qed.

(** No encoding to undo, no change: without a [content-encoding] value, and
    for a declaration all of whose tokens are [identity] or no property of
    [priorities] (own or inherited), the bytes come back as they were and
    no decoder's verdict matters. *)
Theorem decompressResponse_nothing_declared :
  (forall buff : Buffer, decompressResponse None buff = Some buff)
  /\ (forall contentEncoding (buff : Buffer),
        Forall (fun t => priorities (JsString.trim t) = JsUndefined
                         \/ JsString.trim t = "identity")
               (algorithmsOf contentEncoding) ->
        decompressResponse contentEncoding buff = Some buff).
Proof.
  split; [reflexivity|].
  intros contentEncoding buff Hall. unfold decompressResponse.
  pose proof (algorithmsOf_not_nil contentEncoding) as Hne.
  destruct (algorithmsOf contentEncoding) as [|first rest]; [congruence|].
  apply decompressAlgorithms_identity, Hall.
Qed.

(** Declared [deflate]: the first two bytes decide between [zlib.inflate]
    and [zlib.inflateRaw], and the one not chosen is never tried. A buffer
    whose first byte has low nibble 8 and whose first 16 bits are a multiple
    of 31 gets [inflate]'s output, or a copy when [inflate] fails; a single
    byte with low nibble 8 comes back as a copy whatever the decoders do
    (reading 16 bits fails); a buffer whose first byte has another low
    nibble gets [inflateRaw]'s output, or a copy. *)
Theorem decompressResponse_deflate_sniff (b0 b1 : byte) (rest : list byte) :
  ((N.land (Byte.to_N b0) 15 = 8)%N ->
   ((Byte.to_N b0 * 256 + Byte.to_N b1) mod 31 = 0)%N ->
   decompressResponse (Some "deflate") (b0 :: b1 :: rest)
   = Some (default (b0 :: b1 :: rest) (inflateAsync (b0 :: b1 :: rest))))
  /\ ((N.land (Byte.to_N b0) 15 = 8)%N ->
      decompressResponse (Some "deflate") [b0] = Some [b0])
  /\ ((N.land (Byte.to_N b0) 15 <> 8)%N ->
      decompressResponse (Some "deflate") (b0 :: rest)
      = Some (default (b0 :: rest) (inflateRawAsync (b0 :: rest)))).
Proof.
  assert (Hone : forall buff, decompressResponse (Some "deflate") buff
                              = Some (default buff (inflate buff))).
  { intros buff. rewrite decompressResponse_one_token by reflexivity.
    change (JsString.trim "deflate") with "deflate". rewrite decompressors_deflate.
    simpl. unfold tryToDecompress. destruct (inflate buff); reflexivity. }
  split; [|split].
  - intros Hnib Hmod. rewrite Hone. unfold inflate, lowNibble0, readUInt16BE0.
    rewrite Hnib, Hmod. reflexivity.
  - intros Hnib. rewrite Hone. unfold inflate, lowNibble0, readUInt16BE0.
    rewrite Hnib. reflexivity.
  - intros Hnib. rewrite Hone. unfold inflate, lowNibble0.
    destruct (N.eqb_spec (N.land (Byte.to_N b0) 15) 8); [contradiction | reflexivity].
Qed.

End CascadeMore.

(** A declared encoding is where the cascade starts, never after: with
    [gzip] declared the brotli decoder is not consulted, with [deflate]
    neither brotli nor gzip, with [identity] none at all. Two sets of
    decoders that agree on the candidates from the declared one on give the
    same result. *)
Theorem decompressResponse_skips_earlier_candidates (C C' : Codecs) (buff : Buffer) :
  (@decompressGzip C buff = @decompressGzip C' buff ->
   @inflate C buff = @inflate C' buff ->
   @decompressResponse C (Some "gzip") buff = @decompressResponse C' (Some "gzip") buff)
  /\ (@inflate C buff = @inflate C' buff ->
      @decompressResponse C (Some "deflate") buff
      = @decompressResponse C' (Some "deflate") buff)
  /\ @decompressResponse C (Some "identity") buff = Some buff.
Proof.
  split; [|split].
  - intros Hgz Hinf.
    rewrite (@decompressResponse_one_token C), (@decompressResponse_one_token C')
      by reflexivity.
    change (JsString.trim "gzip") with "gzip".
    rewrite (@decompressors_gzip C), (@decompressors_gzip C').
    simpl. unfold tryToDecompress. rewrite Hgz, Hinf. reflexivity.
  - intros Hinf.
    rewrite (@decompressResponse_one_token C), (@decompressResponse_one_token C')
      by reflexivity.
    change (JsString.trim "deflate") with "deflate".
    rewrite (@decompressors_deflate C), (@decompressors_deflate C').
    simpl. unfold tryToDecompress. rewrite Hinf. reflexivity.
  - reflexivity.
Qed.

Section CascadeTrust.
Context `{Codecs}.

(** The declared decoder is trusted when it succeeds: its output is the
    result, empty output included, and no later candidate is consulted. *)
Theorem decompressResponse_declared_decoder_wins (buff out : Buffer) :
  (decompressBrotli buff = Some out -> decompressResponse (Some "br") buff = Some out)
  /\ (decompressGzip buff = Some out ->
      decompressResponse (Some "gzip") buff = Some out).
Proof.
  split; intros Hout; rewrite decompressResponse_one_token by reflexivity.
  - change (JsString.trim "br") with "br". rewrite decompressors_br.
    simpl. unfold tryToDecompress. rewrite Hout. reflexivity.
  - change (JsString.trim "gzip") with "gzip". rewrite decompressors_gzip.
    simpl. unfold tryToDecompress. rewrite Hout. reflexivity.
Qed.

End CascadeTrust.

Section FirstRequest.
Context `{Codecs} `{Collaborators} {R : Type} `{RedirectManager R}.

(** Failures of the first request. A transport error rejects with that
    error and the URI; a followed redirect status whose [Location] header is
    missing or empty rejects as a redirect without location. Either way one
    request was made, nothing was recorded, and neither the limit nor the
    manager has a say. *)
Theorem get_first_request_failures fuel (this : Requester R) uri :
  JsString.startsWith "data:" uri = false ->
  (forall err, request (_options this) uri = inl err ->
     get (S fuel) this uri = (Rejected (NetworkError err uri), this, [uri]))
  /\ (forall response,
        request (_options this) uri = inr response ->
        isValidRedirect (statusCode response) = true ->
        stringOr (res_headers response !! "location") "" = "" ->
        get (S fuel) this uri = (Rejected (MissingLocationError uri), this, [uri])).
Proof.
  intros Hnot. unfold get. rewrite Hnot. destruct this as [m max options].
  split.
  - intros err Hreq. simpl in *. rewrite Hreq. reflexivity.
  - intros response Hreq Hred Hloc. simpl in *. rewrite Hreq, Hred.
    destruct (res_headers response !! "location") as [location|]; [|reflexivity].
    simpl in Hloc. destruct (JsString.truthy location) eqn:Ht; [|reflexivity].
    subst location. discriminate Ht.
Qed.

(** Right after a [get] resolved, the public [getRedirects] of the response
    URL is the [hops] of the result. *)
Theorem getRedirects_agrees_with_hops fuel (this this' : Requester R) uri d log :
  JsString.startsWith "data:" uri = false ->
  get fuel this uri = (Resolved d, this', log) ->
  getRedirects this' (response_url (nd_response d)) = hops (nd_response d).
Proof.
  intros Hnot Hget. unfold getRedirects.
  destruct (get_hops_from_manager _ _ _ _ _ _ Hnot Hget) as [Hhops _].
  symmetry. exact Hhops.
Qed.

End FirstRequest.

(** ** The model on concrete inputs *)

Section Examples.
Import Example.


(** [Hello], gzip-compressed and then brotli-compressed, declared
    [gzip, br]: what comes back is still the gzip stream. *)
Lemma decompressResponse_gzip_br_example :
  @decompressResponse codecs (Some "gzip, br") (brotli (gzip hello))
  = Some (gzip hello).
Proof.
  apply (@decompressResponse_gzip_br_declaration_order codecs); reflexivity.
Defined.

(** The gzip page behind one redirect: the raw response is the two chunks
    as sent, also when every decoder fails. *)
Lemma get_rawResponse_example :
  exists d this' log,
    @get codecs world _ _ 2 fresh "http://site/start" = (Resolved d, this', log)
    /\ ((exists response,
           answers (_options fresh) (response_url (nd_response d)) response
           /\ rawResponse (response_body (nd_response d))
              = Buffer_concat (chunks response))
        /\ (exists d',
           @get failing world _ _ 2 fresh "http://site/start"
           = (Resolved d', this', log)
           /\ rawResponse (response_body (nd_response d'))
              = rawResponse (response_body (nd_response d)))).
Proof.
  run_get. split; [vm_compute; reflexivity|].
  apply (get_rawResponse_is_wire_bytes codecs failing 2 fresh);
    [reflexivity | vm_compute; reflexivity].
Defined.

(** [http://loop/a] and [http://loop/b] redirect to each other. *)
Lemma get_redirect_loop_example :
  @get codecs world _ _ 2 fresh "http://loop/a"
  = (Rejected (RedirectLoopError "http://loop/b"
                 (stringOr (method (_options fresh)) "GET")),
     {| _redirects := rm_add "http://loop/b" "http://loop/a" (_redirects fresh);
        _maxRedirects := _maxRedirects fresh;
        _options := _options fresh |},
     ["http://loop/a"; "http://loop/b"]).
Proof.
  apply (proj2 (@get_redirect_loop_rejected codecs world _ _) 0 fresh).
  - reflexivity.
  - discriminate.
  - redirects_to "http://loop/b".
  - redirects_to "http://loop/a".
  - vm_compute. discriminate.
Defined.




(** A page whose charset is [x-made-up]. *)
Lemma get_unsupported_charset_example :
  exists d this' log,
    @get codecs world _ _ 1 fresh "http://site/odd" = (Resolved d, this', log)
    /\ charset (nd_response d) = "x-made-up"
    /\ content (response_body (nd_response d)) = ContentNull
    /\ is_Some (rawContent (response_body (nd_response d))).
Proof.
  run_get. split; [vm_compute; reflexivity|]. split; [reflexivity|].
  refine (proj2 (proj1 (@get_content_only_for_supported_charset codecs world _ _)
                   1 fresh _ "http://site/odd" _ _ eq_refl _) _);
    [vm_compute; reflexivity | reflexivity].
Defined.

(** [data:text/plain;charset=utf-8,Hello], for a parser that reports the
    parameter [charset=utf-8], the serialized type
    [text/plain;charset=utf-8] and the body [Hello]: the content is the five
    bytes, not the text. *)
Lemma get_data_uri_example :
  exists d,
    @get codecs world _ _ 0 fresh helloDataUri = (Resolved d, fresh, [])
    /\ response_statusCode (nd_response d) = 200%Z
    /\ request_headers (nd_request d) = ∅
    /\ response_headers (nd_response d) = ∅
    /\ hops (nd_response d) = []
    /\ charset (nd_response d) = "utf-8"
    /\ mediaType (nd_response d) = "text/plain;charset=utf-8"
    /\ content (response_body (nd_response d))
       = ContentBody (list_byte_of_string "Hello")
    /\ (forall text, content (response_body (nd_response d)) <> ContentText text)
    /\ rawContent (response_body (nd_response d))
       = Some (list_byte_of_string "Hello")
    /\ rawResponse (response_body (nd_response d)) = list_byte_of_string "Hello"
    /\ request_url (nd_request d) = helloDataUri
    /\ response_url (nd_response d) = helloDataUri.
Proof.
  exact (@get_data_uri codecs world _ _ 0 fresh helloDataUri helloParsed
           eq_refl eq_refl).
Defined.

(** [maxRedirects: 0] and [maxRedirects: 5]. *)
Lemma constructor_maxRedirects_example :
  _maxRedirects (@constructor world _ specRedirectManager
                   (Some (onlyMaxRedirects 0))) = 10%Z
  /\ _maxRedirects (@constructor world _ specRedirectManager
                      (Some (onlyMaxRedirects 5))) = 5%Z.
Proof.
  split.
  - apply (proj1 (@constructor_maxRedirects_falsy_fallback world _
                    specRedirectManager (onlyMaxRedirects 0))).
    reflexivity.
  - apply (proj2 (@constructor_maxRedirects_falsy_fallback world _
                    specRedirectManager (onlyMaxRedirects 5)) 5%Z);
      [lia | reflexivity].
Defined.

(** Bytes that are gzip, declared [br]. *)
Lemma decompressResponse_declared_br_example :
  @decompressResponse codecs (Some "br") (gzip hello) = Some hello.
Proof.
  apply (@decompressResponse_declared_br_actual_gzip codecs); reflexivity.
Defined.

(** The token [x-unknown]. *)
Lemma decompressResponse_unknown_token_example :
  @decompressResponse codecs (Some "x-unknown") (gzip hello) = Some (gzip hello).
Proof.
  apply (@decompressResponse_unknown_token_copies codecs); reflexivity.
Defined.

(** Declared [br, gzip] on bytes that were brotli-compressed and then
    gzip-compressed: the order of the declaration is the order of decoding. *)
Lemma decompressResponse_declaration_order_example :
  @decompressResponse codecs (Some "gzip, br") (gzip (brotli hello))
  = @decompressResponse codecs (Some " br") (brotli hello).
Proof.
  apply (@decompressResponse_declaration_order codecs "gzip" " br"); reflexivity.
Defined.

(** The caller's [User-Agent]: under the lower-cased key it replaces the
    default, and the other defaults stay, lower-cased. *)
Lemma constructor_headers_example :
  exists merged,
    headers (_options (@constructor world _ specRedirectManager
      (Some (onlyHeaders {[ "User-Agent" := "X" ]})))) = Some merged
    /\ merged !! "user-agent" = Some "X"
    /\ merged !! "accept-encoding" = Some "gzip, deflate, br"
    /\ merged !! "User-Agent" = None.
Proof.
  destruct (@constructor_headers_caller_wins world _ specRedirectManager
              (onlyHeaders {[ "User-Agent" := "X" ]}) {[ "User-Agent" := "X" ]}
              eq_refl) as (merged & Hmerged & Hcaller & Hdefault).
  exists merged. split; [exact Hmerged|]. split; [|split].
  - apply Hcaller. vm_compute. reflexivity.
  - rewrite Hdefault; vm_compute; reflexivity.
  - rewrite Hdefault; vm_compute; reflexivity.
Defined.

(** [getRedirects] after the redirect from [http://site/start]. *)
Lemma getRedirects_example :
  exists d this',
    @get codecs world _ _ 2 (constructor None) "http://site/start"
    = (Resolved d, this', ["http://site/start"; "http://site/final"])
    /\ getRedirects this' "http://site/final"
       = ["http://site/start"; "http://site/final"].
Proof.
  apply (@getRedirects_after_chain codecs world None 2 "http://site/start"
           ["http://site/final"]
           (page {[ "content-encoding" := "gzip"; "charset" := "utf-8" ]}
              [gzipMagic; hello])).
  - reflexivity.
  - reflexivity.
  - apply (bool_decide_unpack _). vm_compute. exact I.
  - simpl. split; [redirects_to "http://site/final" | exact I].
  - split; vm_compute; reflexivity.
  - vm_compute. discriminate.
  - simpl. lia.
Defined.

(** Eleven units of fuel are enough for the default limit. *)
Lemma get_terminates_example :
  fst (fst (@get codecs world _ _ 11 fresh "http://chain/0")) <> Unfinished
  /\ forall fuel', 11 <= fuel' ->
       @get codecs world _ _ fuel' fresh "http://chain/0"
       = @get codecs world _ _ 11 fresh "http://chain/0".
Proof.
  apply (@get_terminates codecs world 11 fresh). vm_compute. lia.
Defined.


(** The requests behind [http://site/start]. *)
Lemma get_requests_example :
  exists o this' log,
    @get codecs world _ _ 2 fresh "http://site/start" = (o, this', log)
    /\ exists rest,
         log = "http://site/start" :: rest
         /\ NoDup log
         /\ chainFrom (_options fresh) "http://site/start" rest
         /\ _options this' = _options fresh
         /\ _maxRedirects this' = _maxRedirects fresh.
Proof.
  run_call. split; [vm_compute; reflexivity|].
  eapply (@get_requests_are_a_chain_of_distinct_uris codecs world _ _ 2 fresh);
    [reflexivity | vm_compute; reflexivity | discriminate].
Defined.

(** What the result behind [http://site/start] reports. *)
Lemma get_resolved_reports_example :
  exists d this' log,
    @get codecs world _ _ 2 fresh "http://site/start" = (Resolved d, this', log)
    /\ exists rest response,
         log = "http://site/start" :: rest
         /\ response_url (nd_response d) = List.last rest "http://site/start"
         /\ answers (_options fresh) (List.last rest "http://site/start") response
         /\ response_statusCode (nd_response d) = statusCode response
         /\ response_headers (nd_response d) = res_headers response
         /\ request_headers (nd_request d) = req_headers response
         /\ _redirects this' = recordChain (_redirects fresh) "http://site/start" rest.
Proof.
  run_get. split; [vm_compute; reflexivity|].
  eapply (@get_resolved_reports_last_request codecs world _ _ 2 fresh);
    [reflexivity | vm_compute; reflexivity].
Defined.

(** The rejection of the loop between [http://loop/a] and [http://loop/b]. *)
Lemma get_rejection_cause_example :
  exists rest,
    ["http://loop/a"; "http://loop/b"] = "http://loop/a" :: rest
    /\ lastStep (_options fresh) (_maxRedirects fresh) "http://loop/a"
         (recordChain (_redirects fresh) "http://loop/a" rest)
         (rm_add "http://loop/b" "http://loop/a" (_redirects fresh))
         (List.last rest "http://loop/a")
         (list_to_set ["http://loop/a"; "http://loop/b"])
         (Rejected (RedirectLoopError "http://loop/b" "GET")).
Proof.
  apply (@get_rejection_cause codecs world _ _ 2 fresh
           {| _redirects := rm_add "http://loop/b" "http://loop/a" (_redirects fresh);
              _maxRedirects := _maxRedirects fresh;
              _options := _options fresh |});
    [reflexivity | vm_compute; reflexivity].
Defined.

(** The fields of the result behind [http://site/start]. *)
Lemma get_result_fields_example :
  exists d this' log,
    @get codecs world _ _ 2 fresh "http://site/start" = (Resolved d, this', log)
    /\ rawContent (response_body (nd_response d)) = Some hello
    /\ content (response_body (nd_response d)) = ContentText "Hello"
    /\ isValidRedirect (response_statusCode (nd_response d)) = false
    /\ rawContent (response_body (nd_response d))
       = decompressResponse
           (normalizeHeaderValue (response_headers (nd_response d)) "content-encoding")
           (rawResponse (response_body (nd_response d))).
Proof.
  run_get. split; [vm_compute; reflexivity|].
  split; [reflexivity|]. split; [reflexivity|].
  refine (let P := @get_result_fields_consistent codecs world _ _ 2 fresh _
                     "http://site/start" _ _ eq_refl _ in
          conj (proj1 P) (proj1 (proj2 P))).
  vm_compute. reflexivity.
Defined.

(** [maxRedirects: -1] and the redirect from [http://site/start]. *)
Lemma get_negative_limit_example :
  exists count,
    @get codecs world _ _ 1 (constructor (Some (onlyMaxRedirects (-1))))
      "http://site/start"
    = (Rejected (TooManyRedirectsError count (-1)),
       {| _redirects := rm_add "http://site/final" "http://site/start" rm_new;
          _maxRedirects := (-1)%Z;
          _options := _options (@constructor world _ specRedirectManager
                                  (Some (onlyMaxRedirects (-1)))) |},
       ["http://site/start"]).
Proof.
  apply (@get_negative_limit_rejects_first_redirect codecs world _ _ 0
           (onlyMaxRedirects (-1)) (-1)%Z "http://site/start" "http://site/final").
  - reflexivity.
  - lia.
  - reflexivity.
  - redirects_to "http://site/final".
  - discriminate.
Defined.

(** [" gzip "] *)
Lemma decompressResponse_surrounding_space_example :
  @decompressResponse codecs (Some " gzip ") (gzip hello)
  = @decompressResponse codecs (Some (JsString.trim " gzip ")) (gzip hello).
Proof.
  apply (@decompressResponse_ignores_surrounding_space codecs). reflexivity.
Defined.

(** [identity, x-foo] on gzip bytes. *)
Lemma decompressResponse_nothing_declared_example :
  @decompressResponse codecs (Some "identity, x-foo") (gzip hello)
  = Some (gzip hello).
Proof.
  apply (proj2 (@decompressResponse_nothing_declared codecs)).
  change (algorithmsOf (Some "identity, x-foo")) with ["identity"; " x-foo"].
  constructor; [right; reflexivity|].
  constructor; [left; reflexivity | constructor].
Defined.

(** Declared [gzip] and [deflate], with and without a working brotli. *)
Lemma decompressResponse_skips_earlier_example :
  @decompressResponse codecs (Some "gzip") (brotli hello)
  = @decompressResponse withoutBrotli (Some "gzip") (brotli hello)
  /\ @decompressResponse codecs (Some "deflate") (gzip hello)
     = @decompressResponse withoutBrotli (Some "deflate") (gzip hello).
Proof.
  split.
  - apply (proj1 (decompressResponse_skips_earlier_candidates codecs withoutBrotli
                    (brotli hello))); reflexivity.
  - apply (proj1 (proj2 (decompressResponse_skips_earlier_candidates codecs
                           withoutBrotli (gzip hello)))); reflexivity.
Defined.

(** The zlib header [78 9c], the lone byte [78], and a gzip stream declared
    [deflate]. *)
Lemma decompressResponse_deflate_sniff_example :
  @decompressResponse codecs (Some "deflate") (x78 :: x9c :: hello) = Some hello
  /\ @decompressResponse codecs (Some "deflate") [x78] = Some [x78]
  /\ @decompressResponse codecs (Some "deflate") (gzip hello) = Some (gzip hello).
Proof.
  split; [|split].
  - apply (proj1 (@decompressResponse_deflate_sniff codecs x78 x9c hello));
      reflexivity.
  - apply (proj1 (proj2 (@decompressResponse_deflate_sniff codecs x78 x9c hello)));
      reflexivity.
  - apply (proj2 (proj2 (@decompressResponse_deflate_sniff codecs x1f x8b
                           (x8b :: hello)))).
    vm_compute. discriminate.
Defined.

(** Declared and actual [br]; declared and actual [gzip]. *)
Lemma decompressResponse_declared_decoder_example :
  @decompressResponse codecs (Some "br") (brotli hello) = Some hello
  /\ @decompressResponse codecs (Some "gzip") (gzip []) = Some [].
Proof.
  split.
  - apply (proj1 (@decompressResponse_declared_decoder_wins codecs (brotli hello)
                    hello)). reflexivity.
  - apply (proj2 (@decompressResponse_declared_decoder_wins codecs (gzip []) [])).
    reflexivity.
Defined.

(** An unknown host, and a redirect that names no location. *)
Lemma get_first_request_failures_example :
  @get codecs world _ _ 1 fresh "http://nowhere/"
  = (Rejected (NetworkError "ENOTFOUND" "http://nowhere/"), fresh, ["http://nowhere/"])
  /\ @get codecs worldLost _ _ 1 fresh "http://site/lost"
     = (Rejected (MissingLocationError "http://site/lost"), fresh, ["http://site/lost"]).
Proof.
  split.
  - apply (proj1 (@get_first_request_failures codecs world _ _ 0 fresh
                    "http://nowhere/" eq_refl)). reflexivity.
  - apply (proj2 (@get_first_request_failures codecs worldLost _ _ 0 fresh
                    "http://site/lost" eq_refl) lost); reflexivity.
Defined.

(** [getRedirects] after the get of [http://site/start]. *)
Lemma getRedirects_agrees_example :
  exists d this' log,
    @get codecs world _ _ 2 fresh "http://site/start" = (Resolved d, this', log)
    /\ getRedirects this' (response_url (nd_response d)) = hops (nd_response d).
Proof.
  run_get. split; [vm_compute; reflexivity|].
  eapply (@getRedirects_agrees_with_hops codecs world _ _ 2 fresh _
            "http://site/start");
    [reflexivity | vm_compute; reflexivity].
Defined.

End Examples.
